(** * Biofilm visualisation: frame construction pipeline

    A shallow embedding of [src/visualisation/video_visualization.py]
    (video mode), [src/visualisation/visualisation_app.py] (final-state
    mode) and [src/visualisation/create_video.py]: CSV cleaning, tick
    index, viewport, capsule geometry, the frame driver, the encoder
    fallback chain and the choice of the part file.

    Numbers.  A float of the program is a rational, one of the two
    infinities, or the missing value; rounding of binary floating point is
    not modelled.  Angles, sines and cosines live in [R]; rationals enter
    [R] through [Q2R]. *)

From Stdlib Require Import List ZArith QArith Qabs Qminmax Qreals.
From Stdlib Require Import String Ascii Bool Lia Lra Lqa.
From Stdlib Require Import Sorting.Sorted.
From Stdlib Require Import Reals.
Import ListNotations.

Local Open Scope Z_scope.

(** ** Floats *)

(** A float64 as the scripts see it: a finite number, plus or minus
    infinity, or NaN. *)
Inductive Float : Type :=
| Finite (q : Q)
| Infinite (negative : bool)
| NotANumber.

Definition is_finite (x : Float) : bool :=
  match x with Finite _ => true | _ => false end.

Definition fneg (x : Float) : Float :=
  match x with
  | Finite q => Finite (- q)
  | Infinite n => Infinite (negb n)
  | NotANumber => NotANumber
  end.

(** IEEE addition: opposite infinities give NaN. *)
Definition fadd (x y : Float) : Float :=
  match x, y with
  | Finite a, Finite b => Finite (a + b)
  | Finite _, Infinite n => Infinite n
  | Infinite n, Finite _ => Infinite n
  | Infinite n, Infinite m => if Bool.eqb n m then Infinite n else NotANumber
  | _, _ => NotANumber
  end.

Definition fsub (x y : Float) : Float := fadd x (fneg y).

(** IEEE multiplication: zero times infinity gives NaN. *)
Definition fmul (x y : Float) : Float :=
  match x, y with
  | Finite a, Finite b => Finite (a * b)
  | Finite a, Infinite n =>
      match (a ?= 0)%Q with
      | Eq => NotANumber
      | Gt => Infinite n
      | Lt => Infinite (negb n)
      end
  | Infinite n, Finite b =>
      match (b ?= 0)%Q with
      | Eq => NotANumber
      | Gt => Infinite n
      | Lt => Infinite (negb n)
      end
  | Infinite n, Infinite m => Infinite (xorb n m)
  | _, _ => NotANumber
  end.

(** [x < y]; false as soon as one side is NaN. *)
Definition flt (x y : Float) : bool :=
  match x, y with
  | Finite a, Finite b => match (a ?= b)%Q with Lt => true | _ => false end
  | Finite _, Infinite n => negb n
  | Infinite n, Finite _ => n
  | Infinite n, Infinite m => n && negb m
  | _, _ => false
  end.

(** Python's [max(a, b)]: [b] when [b > a], [a] otherwise. *)
Definition py_max (a b : Float) : Float := if flt a b then b else a.

(** The smaller and the larger of two floats as [Series.min()] and
    [Series.max()] combine them: a NaN is skipped. *)
Definition fmin (x y : Float) : Float :=
  match x, y with
  | NotANumber, _ => y
  | _, NotANumber => x
  | Finite a, Finite b => Finite (Qmin a b)
  | _, _ => if flt y x then y else x
  end.

Definition fmax (x y : Float) : Float :=
  match x, y with
  | NotANumber, _ => y
  | _, NotANumber => x
  | Finite a, Finite b => Finite (Qmax a b)
  | _, _ => if flt x y then y else x
  end.

(** ** Cells, rows and data frames *)

(** One cell of a pandas DataFrame: a float or text. *)
Inductive value : Type :=
| Flt (x : Float)
| Str (s : string).

(** The missing value, a finite number, an infinity. *)
Abbreviation NaN := (Flt NotANumber).
Abbreviation Num q := (Flt (Finite q)).
Abbreviation Inf n := (Flt (Infinite n)).

(** One row.  The column [tick_num] changes type during cleaning (raw cell,
    then integer), so the row is parametric in it; [others] holds the
    columns the pipeline never names. *)
Record Row (T : Type) : Type := mkRow {
  tick_num : T;
  agent_type : value;
  pos_X : value;
  pos_Y : value;
  diameter : value;
  length : value;
  orientation_X : value;
  orientation_Y : value;
  others : list value
}.

Arguments mkRow {T}.
Arguments tick_num {T}.
Arguments agent_type {T}.
Arguments pos_X {T}.
Arguments pos_Y {T}.
Arguments diameter {T}.
Arguments length {T}.
Arguments orientation_X {T}.
Arguments orientation_Y {T}.
Arguments others {T}.

Definition DataFrame (T : Type) : Type := list (Row T).

Definition isna (v : value) : bool :=
  match v with NaN => true | _ => false end.

(** A finite number. *)
Definition is_num (v : value) : bool :=
  match v with Num _ => true | _ => false end.

(** A float that is not missing: a finite number or an infinity. *)
Definition is_number (v : value) : bool :=
  match v with Num _ => true | Inf _ => true | _ => false end.

(** [df[col] = ...] for the tick column. *)
Definition set_tick {T U : Type} (r : Row T) (t : U) : Row U :=
  mkRow t (agent_type r) (pos_X r) (pos_Y r) (diameter r) (length r)
        (orientation_X r) (orientation_Y r) (others r).

(** All cells of a raw row, in column order. *)
Definition row_values (r : Row value) : list value :=
  tick_num r :: agent_type r :: pos_X r :: pos_Y r :: diameter r ::
  length r :: orientation_X r :: orientation_Y r :: others r.

(** [numeric_columns] of video_visualization.py. *)
Definition numeric_columns {T : Type} (r : Row T) : list value :=
  [pos_X r; pos_Y r; diameter r; length r; orientation_X r; orientation_Y r].

(** [df.dropna()]: drop every row with a missing cell in any column. *)
Definition dropna (df : DataFrame value) : DataFrame value :=
  filter (fun r => negb (existsb isna (row_values r))) df.

(** [x.str.contains('#')] after [astype(str)].  The text of a float never
    holds the character. *)
Definition has_hash (s : string) : bool :=
  existsb (Ascii.eqb "#"%char) (list_ascii_of_string s).

Definition contains_hash (v : value) : bool :=
  match v with Str s => has_hash s | _ => false end.

(** [df[~df.astype(str).apply(lambda x: x.str.contains('#')).any(axis=1)]] *)
Definition drop_separators (df : DataFrame value) : DataFrame value :=
  filter (fun r => negb (existsb contains_hash (row_values r))) df.

(** [int(x)] of a finite float: truncation toward zero. *)
Definition Qtrunc (q : Q) : Z := Z.quot (Qnum q) (Zpos (Qden q)).

(** The range of int64. *)
Definition in_int64 (z : Z) : bool := (- 2 ^ 63 <=? z) && (z <? 2 ^ 63).

(** [df.dropna(subset=['tick_num'])] *)
Definition dropna_tick (df : DataFrame value) : DataFrame value :=
  filter (fun r => negb (isna (tick_num r))) df.

(** [df.dropna(subset=numeric_columns)] *)
Definition dropna_numeric {T : Type} (df : DataFrame T) : DataFrame T :=
  filter (fun r => negb (existsb isna (numeric_columns r))) df.

(** ** Geometry *)

(** [matplotlib.transforms.Affine2D]: the top two rows of the 3x3 matrix
    [[xx xy x0] [yx yy y0] [0 0 1]]. *)
Record Affine2D : Type := mkAffine2D {
  m_xx : R; m_xy : R; m_x0 : R;
  m_yx : R; m_yy : R; m_y0 : R
}.

(** [Affine2D()] *)
Definition identity : Affine2D := mkAffine2D 1 0 0 0 1 0.

(** [Affine2D.rotate(theta)]: the rotation matrix times the current one. *)
Definition rotate (theta : R) (m : Affine2D) : Affine2D :=
  let a := cos theta in
  let b := sin theta in
  mkAffine2D (a * m_xx m - b * m_yx m) (a * m_xy m - b * m_yy m)
             (a * m_x0 m - b * m_y0 m)
             (b * m_xx m + a * m_yx m) (b * m_xy m + a * m_yy m)
             (b * m_x0 m + a * m_y0 m).

(** [math.radians] and [np.degrees]. *)
Definition radians (deg : R) : R := (deg * (PI / 180))%R.
Definition degrees (rad : R) : R := (rad * (180 / PI))%R.

(** [Affine2D.rotate_deg(degrees)] *)
Definition rotate_deg (deg : R) (m : Affine2D) : Affine2D :=
  rotate (radians deg) m.

(** [Affine2D.translate(tx, ty)] *)
Definition translate (tx ty : R) (m : Affine2D) : Affine2D :=
  mkAffine2D (m_xx m) (m_xy m) (m_x0 m + tx)
             (m_yx m) (m_yy m) (m_y0 m + ty).

(** The image of a point under the transform. *)
Definition transform_point (m : Affine2D) (p : R * R) : R * R :=
  ((m_xx m * fst p + m_xy m * snd p + m_x0 m)%R,
   (m_yx m * fst p + m_yy m * snd p + m_y0 m)%R).

(** [np.arctan2(y, x)]: the angle of the vector (x, y) in (-PI, PI]. *)
Definition arctan2 (y x : R) : R :=
  if Rlt_dec 0 x then atan (y / x)
  else if Rlt_dec x 0 then
         if Rle_dec 0 y then (atan (y / x) + PI)%R
         else (atan (y / x) - PI)%R
       else if Rlt_dec 0 y then (PI / 2)%R
            else if Rlt_dec y 0 then (- (PI / 2))%R
                 else 0%R.

(** The two patch classes the scripts draw, in the coordinates they are
    constructed with. *)
Inductive Patch : Type :=
| FancyBboxPatch (xy : Q * Q) (width height : Q)
| Circle (xy : Q * Q) (radius : Q).

(** A patch with the transform that takes it to data coordinates. *)
Record Artist : Type := mkArtist {
  patch : Patch;
  get_transform : Affine2D
}.

(** The three patches of one bacterial cell. *)
Record CellPatches : Type := mkCellPatches {
  rect : Artist;
  left_cap : Artist;
  right_cap : Artist
}.

(** The body of the loop over cells, the same in [animate] (lines 126-141)
    and in [plot_final_state] (lines 157-179), once the six fields are
    numbers. *)
Definition draw_cell (w l ox oy px py : Q) : CellPatches :=
  let angle := arctan2 (Q2R oy) (Q2R ox) in
  let angle_deg := degrees angle in
  let rect_len := (l - w)%Q in
  let rect_w := w in
  let r := (w / 2)%Q in
  let rect := FancyBboxPatch ((- rect_len / 2)%Q, (- rect_w / 2)%Q)
                             rect_len rect_w in
  let left_cap := Circle ((- rect_len / 2)%Q, 0%Q) r in
  let right_cap := Circle ((rect_len / 2)%Q, 0%Q) r in
  let t := translate (Q2R px) (Q2R py) (rotate_deg angle_deg identity) in
  mkCellPatches (mkArtist rect t) (mkArtist left_cap t) (mkArtist right_cap t).

(** The body of the loop over EPS particles: a circle placed directly in
    data coordinates. *)
Definition draw_eps (d px py : Q) : Artist :=
  let radius := (d / 2)%Q in
  mkArtist (Circle (px, py) radius) identity.

(** ** What the libraries do where this model does not follow them *)

(** Three things are taken as they come from pandas, numpy and matplotlib,
    and everything is verified for every way they may behave:
    - [scan]: the float a text reads as ([pd.to_numeric] and [float(...)]),
      [None] when the text is no number;
    - [cast_overflow]: what the cast of a float to int64 gives when the
      float is finite but outside int64 (it does not raise);
    - [eps_nonfinite] and [cell_nonfinite]: what matplotlib adds to the
      axes for a particle or a cell one of whose numbers is not finite, or
      [None] when it raises; the geometry of such patches is outside this
      model. *)
Record Library : Type := mkLibrary {
  scan : string -> option Float;
  cast_overflow : Q -> Z;
  eps_nonfinite : Float -> Float -> Float -> option (list Artist);
  cell_nonfinite :
    Float -> Float -> Float -> Float -> Float -> Float -> option (list Artist)
}.

Section Loaders.

Variable lib : Library.

(** [pd.to_numeric(..., errors='coerce')] on one cell. *)
Definition to_numeric (v : value) : value :=
  match v with
  | Flt x => Flt x
  | Str s => match scan lib s with Some x => Flt x | None => NaN end
  end.

(** The int64 a finite float is cast to. *)
Definition int64_of (q : Q) : Z :=
  if in_int64 (Qtrunc q) then Qtrunc q else cast_overflow lib q.

(** [astype(int)] on one cell; [None] is the exception pandas raises on a
    cell that is not a finite number. *)
Definition astype_int (v : value) : option Z :=
  match v with Num q => Some (int64_of q) | _ => None end.

(** [df['tick_num'].astype(int)] over the whole column: one bad cell makes
    the whole statement raise. *)
Fixpoint astype_int_col (df : DataFrame value) : option (DataFrame Z) :=
  match df with
  | [] => Some []
  | r :: rest =>
      match astype_int (tick_num r), astype_int_col rest with
      | Some t, Some rest' => Some (set_tick r t :: rest')
      | _, _ => None
      end
  end.

(** [df['tick_num'] = pd.to_numeric(df['tick_num'], errors='coerce')] *)
Definition coerce_tick (df : DataFrame value) : DataFrame value :=
  map (fun r => set_tick r (to_numeric (tick_num r))) df.

(** The loop [for col in numeric_columns: df[col] = pd.to_numeric(...)]. *)
Definition coerce_numeric {T : Type} (df : DataFrame T) : DataFrame T :=
  map (fun r =>
         mkRow (tick_num r) (agent_type r)
               (to_numeric (pos_X r)) (to_numeric (pos_Y r))
               (to_numeric (diameter r)) (to_numeric (length r))
               (to_numeric (orientation_X r)) (to_numeric (orientation_Y r))
               (others r)) df.

(** The steps both loaders share (lines 20-28 of video_visualization.py,
    lines 32-40 of visualisation_app.py).  [None] is the [except] branch,
    which prints the error and exits with status 1. *)
Definition load_common (raw : DataFrame value) : option (DataFrame Z) :=
  astype_int_col (dropna_tick (coerce_tick (drop_separators (dropna raw)))).

(** [TkinterBiofilmViewer.load_data]: the shared steps and nothing more. *)
Definition load_data (raw : DataFrame value) : option (DataFrame Z) :=
  load_common raw.

(** The module-level cleaning of video_visualization.py: the shared steps,
    then coercion of the six numeric columns and removal of the rows
    where one of them is missing. *)
Definition load_video (raw : DataFrame value) : option (DataFrame Z) :=
  match load_common raw with
  | Some df => Some (dropna_numeric (coerce_numeric df))
  | None => None
  end.

End Loaders.

(** ** Tick index *)

(** [Series.unique()]: distinct values in order of first appearance. *)
Fixpoint unique (l : list Z) : list Z :=
  match l with
  | [] => []
  | x :: rest => x :: filter (fun y => negb (y =? x)) (unique rest)
  end.

Fixpoint insert_sorted (x : Z) (l : list Z) : list Z :=
  match l with
  | [] => [x]
  | y :: rest => if x <=? y then x :: l else y :: insert_sorted x rest
  end.

(** [sorted(...)] on integers, ascending. *)
Fixpoint sorted (l : list Z) : list Z :=
  match l with
  | [] => []
  | x :: rest => insert_sorted x (sorted rest)
  end.

(** [time_steps = sorted(df['tick_num'].unique())] *)
Definition time_steps (df : DataFrame Z) : list Z :=
  sorted (unique (map tick_num df)).

(** ** Console output

    Every [print] of the two scripts that the claims talk about, as a
    structured event rather than as formatted text. *)

Record Bounds : Type := mkBounds {
  plot_min_x : Float;
  plot_max_x : Float;
  plot_min_y : Float;
  plot_max_y : Float
}.

Inductive message : Type :=
| ErrorReading
| FoundTimeSteps (n : nat)
| TimeStepRange (first last_ : Z)
| DynamicPlotBounds (b : Bounds)
| WarnNoDataInLastTick
| WarnNoTimeSteps
| CreatingAnimation (n : nat)
| SavingVideo
| VideoSavedTo (file : string)
| ErrorSavingVideo (e : string)
| TryingAlternativeMethod
| AnimationSavedAsGif (file : string)
| ErrorSavingGif (e : string)
| ShowingAnimationInWindow
| AnimationComplete.

(** ** Viewport *)

(** A cell used in arithmetic with no conversion: text makes the
    arithmetic raise. *)
Definition as_number (v : value) : option Float :=
  match v with Flt x => Some x | Str _ => None end.

Fixpoint numbers (col : list value) : option (list Float) :=
  match col with
  | [] => Some []
  | v :: rest =>
      match as_number v, numbers rest with
      | Some x, Some xs => Some (x :: xs)
      | _, _ => None
      end
  end.

(** [Series.min()] and [Series.max()] of a column of floats. *)
Definition series_min (col : list Float) : Float :=
  match col with
  | [] => NotANumber
  | x :: rest => fold_left fmin rest x
  end.

Definition series_max (col : list Float) : Float :=
  match col with
  | [] => NotANumber
  | x :: rest => fold_left fmax rest x
  end.

Definition default_bounds : Bounds :=
  mkBounds (Finite 0) (Finite 100) (Finite 0) (Finite 100).

(** [df[df['tick_num'] == tick]] *)
Definition rows_at (df : DataFrame Z) (tick : Z) : DataFrame Z :=
  filter (fun r => tick_num r =? tick) df.

(** Lines 54-67 of video_visualization.py, lines 58-71 of
    visualisation_app.py: the box around a non-empty frame. *)
Definition dynamic_bounds (xs ys ds ls : list Float) : Bounds :=
  let min_x := series_min xs in
  let max_x := series_max xs in
  let min_y := series_min ys in
  let max_y := series_max ys in
  let max_diameter := series_max ds in
  let max_length := series_max ls in
  let padding := fmul (py_max max_diameter max_length) (Finite 2) in
  mkBounds (fsub min_x padding) (fadd max_x padding)
           (fsub min_y padding) (fadd max_y padding).

(** The viewport block of both scripts ([setup_plot_bounds] in the viewer,
    lines 48-79 at module level in the video script).  The result carries
    the line printed; [None] is the [TypeError] of arithmetic on text. *)
Definition setup_plot_bounds (df : DataFrame Z) (ts : list Z)
  : option (Bounds * message) :=
  match ts with
  | [] => Some (default_bounds, WarnNoTimeSteps)
  | _ :: _ =>
      let last_tick := last ts 0 in
      let last_tick_data := rows_at df last_tick in
      match last_tick_data with
      | [] => Some (default_bounds, WarnNoDataInLastTick)
      | _ :: _ =>
          match numbers (map pos_X last_tick_data),
                numbers (map pos_Y last_tick_data),
                numbers (map diameter last_tick_data),
                numbers (map length last_tick_data) with
          | Some xs, Some ys, Some ds, Some ls =>
              let b := dynamic_bounds xs ys ds ls in
              Some (b, DynamicPlotBounds b)
          | _, _, _, _ => None
          end
      end
  end.

(** [ax.set_xlim(...)] and [ax.set_ylim(...)] accept a box when its four
    limits are finite, and raise [ValueError] otherwise. *)
Definition finite_bounds (b : Bounds) : bool :=
  is_finite (plot_min_x b) && is_finite (plot_max_x b)
  && is_finite (plot_min_y b) && is_finite (plot_max_y b).

(** ** Frames *)

Inductive Title : Type :=
| TitleAnimation
| TitleTick (tick : Z)
| TitleFinalState (tick : Z).

(** What is on the shared axes between two frames: the title and the two
    module-level lists [eps_patches] and [cell_patches]. *)
Record Axes : Type := mkAxes {
  title : Title;
  eps_patches : list Artist;
  cell_patches : list Artist
}.

(** The axes as lines 84-94 leave them. *)
Definition initial_axes : Axes := mkAxes TitleAnimation [] [].

(** [row['agent_type'] == s] *)
Definition value_is (s : string) (v : value) : bool :=
  match v with Str s' => String.eqb s' s | _ => false end.

(** A loop whose body may raise: the first failure ends it. *)
Fixpoint traverse {A B : Type} (f : A -> option B) (l : list A)
  : option (list B) :=
  match l with
  | [] => Some []
  | x :: rest =>
      match f x, traverse f rest with
      | Some y, Some ys => Some (y :: ys)
      | _, _ => None
      end
  end.

(** [cell_patches.extend([rect, left_cap, right_cap])] *)
Definition patches_of (c : CellPatches) : list Artist :=
  [rect c; left_cap c; right_cap c].

Inductive exn : Type :=
| IndexError
| TypeError
| ValueError
| LibraryError.

(** A value, or the exception raised on the way to it. *)
Inductive Result (A : Type) : Type :=
| Ok (a : A)
| Raise (e : exn).

Arguments Ok {A}.
Arguments Raise {A}.

(** A loop whose body may raise, keeping which exception: the exception of
    the first row that fails. *)
Fixpoint traverse_result {A B : Type} (f : A -> Result B) (l : list A)
  : Result (list B) :=
  match l with
  | [] => Ok []
  | x :: rest =>
      match f x with
      | Raise e => Raise e
      | Ok y =>
          match traverse_result f rest with
          | Raise e => Raise e
          | Ok ys => Ok (y :: ys)
          end
      end
  end.

Section Compositor.

Variable lib : Library.

(** [float(x)] on a cell: a float is kept, text is scanned and raises
    [ValueError] when it is no number. *)
Definition py_float (v : value) : option Float :=
  match v with
  | Flt x => Some x
  | Str s => scan lib s
  end.

(** The body of the loop over EPS particles on three floats: the circle of
    [draw_eps] when they are finite. *)
Definition add_eps (d px py : Float) : option (list Artist) :=
  match d, px, py with
  | Finite d, Finite px, Finite py => Some [draw_eps d px py]
  | _, _, _ => eps_nonfinite lib d px py
  end.

(** The body of the loop over cells on six floats: the three patches of
    [draw_cell] when they are finite. *)
Definition add_cell (w l ox oy px py : Float) : option (list Artist) :=
  match w, l, ox, oy, px, py with
  | Finite w, Finite l, Finite ox, Finite oy, Finite px, Finite py =>
      Some (patches_of (draw_cell w l ox oy px py))
  | _, _, _, _, _, _ => cell_nonfinite lib w l ox oy px py
  end.

(** Lines 116-121. *)
Definition animate_eps (r : Row Z) : option (list Artist) :=
  match py_float (diameter r), py_float (pos_X r), py_float (pos_Y r) with
  | Some d, Some px, Some py => add_eps d px py
  | _, _, _ => None
  end.

(** Lines 126-144. *)
Definition animate_cell (r : Row Z) : option (list Artist) :=
  match py_float (diameter r), py_float (length r),
        py_float (orientation_Y r), py_float (orientation_X r),
        py_float (pos_X r), py_float (pos_Y r) with
  | Some w, Some l, Some oy, Some ox, Some px, Some py =>
      add_cell w l ox oy px py
  | _, _, _, _, _, _ => None
  end.

(** [animate(frame)].  The patches of the previous frame are removed and
    both lists cleared before anything is drawn; [None] is an exception
    ([IndexError] on the tick lookup, [ValueError] in [float], or one
    raised inside matplotlib). *)
Definition animate (df : DataFrame Z) (ts : list Z)
           (frame : nat) (ax : Axes) : option Axes :=
  let ax := mkAxes (title ax) [] [] in
  match nth_error ts frame with
  | None => None
  | Some tick =>
      let tick_data := rows_at df tick in
      let cells := filter (fun r => value_is "cell" (agent_type r)) tick_data in
      let eps := filter (fun r => value_is "eps" (agent_type r)) tick_data in
      match traverse animate_eps eps, traverse animate_cell cells with
      | Some es, Some cs =>
          Some (mkAxes (TitleTick tick)
                       (eps_patches ax ++ List.concat es)
                       (cell_patches ax ++ List.concat cs))
      | _, _ => None
      end
  end.

(** [FuncAnimation(fig, animate, frames=n)] being saved: [animate] is
    called with 0, 1, ..., n-1 in this order and the canvas is grabbed
    after each call. *)
Fixpoint grab_frames (draw : nat -> Axes -> option Axes)
         (frames : list nat) (ax : Axes) : option (list Axes) :=
  match frames with
  | [] => Some []
  | i :: rest =>
      match draw i ax with
      | None => None
      | Some ax' =>
          match grab_frames draw rest ax' with
          | None => None
          | Some grabbed => Some (ax' :: grabbed)
          end
      end
  end.

Definition saved_frames (df : DataFrame Z) : option (list Axes) :=
  let ts := time_steps df in
  grab_frames (animate df ts) (seq 0 (List.length ts)) initial_axes.

(** The viewer draws with no [float(...)]: text makes the arithmetic raise
    [TypeError]. *)
Definition final_eps (r : Row Z) : Result (list Artist) :=
  match as_number (diameter r), as_number (pos_X r), as_number (pos_Y r) with
  | Some d, Some px, Some py =>
      match add_eps d px py with
      | Some patches => Ok patches
      | None => Raise LibraryError
      end
  | _, _, _ => Raise TypeError
  end.

Definition final_cell (r : Row Z) : Result (list Artist) :=
  match as_number (diameter r), as_number (length r),
        as_number (orientation_Y r), as_number (orientation_X r),
        as_number (pos_X r), as_number (pos_Y r) with
  | Some w, Some l, Some oy, Some ox, Some px, Some py =>
      match add_cell w l ox oy px py with
      | Some patches => Ok patches
      | None => Raise LibraryError
      end
  | _, _, _, _, _, _ => Raise TypeError
  end.

End Compositor.

Inductive FinalPlot : Type :=
| NoDataAvailable
| FinalState (ax : Axes) (cell_count eps_count : nat).

(** [TkinterBiofilmViewer.plot_final_state]; [b] is the box computed by
    [setup_plot_bounds].  The patches are added first; the axis limits are
    set after them (lines 187-188). *)
Definition plot_final_state (lib : Library) (df : DataFrame Z) (ts : list Z)
           (b : Bounds) : Result FinalPlot :=
  match ts with
  | [] => Ok NoDataAvailable
  | _ :: _ =>
      let final_tick := last ts 0 in
      let tick_data := rows_at df final_tick in
      let cells := filter (fun r => value_is "cell" (agent_type r)) tick_data in
      let eps := filter (fun r => value_is "eps" (agent_type r)) tick_data in
      match traverse_result (final_eps lib) eps with
      | Raise e => Raise e
      | Ok es =>
          match traverse_result (final_cell lib) cells with
          | Raise e => Raise e
          | Ok cs =>
              if finite_bounds b then
                Ok (FinalState (mkAxes (TitleFinalState final_tick)
                                       (List.concat es) (List.concat cs))
                               (List.length cells) (List.length eps))
              else Raise ValueError
          end
      end
  end.

(** ** Saving the animation *)

(** Outcome of one [anim.save(...)]: done, or an exception with its text. *)
Inductive save_result : Type :=
| Saved
| Raised (e : string).

(** The backends that matter here: [Agg] draws to memory and has no window;
    a GUI backend has one. *)
Inductive Backend : Type :=
| Agg
| Gui.

(** Line 2: [matplotlib.use('Agg')], "Use non-interactive backend". *)
Definition backend : Backend := Agg.

(** What the run leaves for the user to look at. *)
Inductive Delivered : Type :=
| Mp4File (file : string)
| GifFile (file : string)
| Window
| Nothing.

(** [plt.show()]: a GUI backend opens the window; [Agg] cannot show a
    figure and returns at once. *)
Definition plt_show (b : Backend) : Delivered :=
  match b with
  | Gui => Window
  | Agg => Nothing
  end.

Definition video_filename : string := "output/biofilm_simulation_video.mp4".
Definition gif_filename : string := "output/biofilm_simulation_animation.gif".

(** Lines 160-183: MP4 through ffmpeg, then GIF through pillow, then
    [plt.show()]. *)
Definition save_animation (ffmpeg pillow : save_result)
  : list message * Delivered :=
  match ffmpeg with
  | Saved =>
      ([SavingVideo; VideoSavedTo video_filename; AnimationComplete],
       Mp4File video_filename)
  | Raised e =>
      match pillow with
      | Saved =>
          ([SavingVideo; ErrorSavingVideo e; TryingAlternativeMethod;
            AnimationSavedAsGif gif_filename; AnimationComplete],
           GifFile gif_filename)
      | Raised e2 =>
          ([SavingVideo; ErrorSavingVideo e; TryingAlternativeMethod;
            ErrorSavingGif e2; ShowingAnimationInWindow; AnimationComplete],
           plt_show backend)
      end
  end.

(** ** The two programs *)

(** How a run ends: [exit(1)], an uncaught exception, or the last line. *)
Inductive Run (A : Type) : Type :=
| Exit1 (log : list message)
| Traceback (e : exn) (log : list message)
| Completed (log : list message) (b : Bounds) (result : A).

Arguments Exit1 {A}.
Arguments Traceback {A}.
Arguments Completed {A}.

Section Programs.

Variable lib : Library.

(** video_visualization.py from the cleaning to the last line; the two
    encoders are the environment. *)
Definition video_script (raw : DataFrame value)
           (ffmpeg pillow : save_result) : Run Delivered :=
  match load_video lib raw with
  | None => Exit1 [ErrorReading]
  | Some df =>
      let ts := time_steps df in
      let log := [FoundTimeSteps (List.length ts)] in
      match ts with
      | [] => Traceback IndexError log
      | first :: _ =>
          let log := log ++ [TimeStepRange first (last ts 0)] in
          match setup_plot_bounds df ts with
          | None => Traceback TypeError log
          | Some (b, m) =>
              if finite_bounds b then
                let (saving, out) := save_animation ffmpeg pillow in
                Completed (log ++ [m; CreatingAnimation (List.length ts)]
                               ++ saving) b out
              else Traceback ValueError (log ++ [m])
          end
      end
  end.

(** [TkinterBiofilmViewer.__init__]: [load_data], [setup_plot_bounds],
    then [plot_final_state] from [create_gui]. *)
Definition viewer (raw : DataFrame value) : Run FinalPlot :=
  match load_data lib raw with
  | None => Exit1 [ErrorReading]
  | Some df =>
      let ts := time_steps df in
      let log := [FoundTimeSteps (List.length ts)] in
      match setup_plot_bounds df ts with
      | None => Traceback TypeError log
      | Some (b, m) =>
          match plot_final_state lib df ts b with
          | Raise e => Traceback e (log ++ [m])
          | Ok p => Completed (log ++ [m]) b p
          end
      end
  end.

End Programs.

(** ** A scanner to run the definitions with

    Plain decimal literals: an optional minus sign, digits, at most one
    point.  It stands for pandas' scanner in the worked examples only; the
    theorems quantify over every scanner. *)

Definition digit_of (c : ascii) : option Z :=
  let n := Z.of_nat (nat_of_ascii c) in
  if (48 <=? n) && (n <=? 57) then Some (n - 48) else None.

Fixpoint read_digits (s : string) (acc : Z) (scale : positive)
         (seen_point any : bool) : option Q :=
  match s with
  | EmptyString => if any then Some (acc # scale) else None
  | String c rest =>
      if Ascii.eqb c "."%char then
        if seen_point then None else read_digits rest acc scale true any
      else
        match digit_of c with
        | Some d =>
            read_digits rest (10 * acc + d)
                        (if seen_point then (10 * scale)%positive else scale)
                        seen_point true
        | None => None
        end
  end.

Definition read_decimal (s : string) : option Q :=
  match s with
  | String "-"%char rest => option_map Qopp (read_digits rest 0 1 false false)
  | _ => read_digits s 0 1 false false
  end.

(** The same with the spellings of the infinities and of the missing
    value. *)
Definition read_float (s : string) : option Float :=
  if String.eqb s "inf" then Some (Infinite false)
  else if String.eqb s "-inf" then Some (Infinite true)
  else if String.eqb s "nan" then Some NotANumber
  else match read_decimal s with
       | Some q => Some (Finite q)
       | None => None
       end.

(** A library to run the definitions with: the reader above, a cast that
    gives the least int64 outside the range, and a matplotlib that raises
    on every patch that is not finite. *)
Definition plain_library : Library :=
  mkLibrary read_float (fun _ => - 2 ^ 63)
            (fun _ _ _ => None) (fun _ _ _ _ _ _ => None).

(** ** Measures of a drawn capsule

    How long and how wide the union of the three patches is, measured in
    the frame the patches are built in (the transform that follows is a
    rotation and a translation, which keep lengths). *)

Definition x_extent (p : Patch) : Q * Q :=
  match p with
  | FancyBboxPatch (x0, _) w _ => (Qmin x0 (x0 + w), Qmax x0 (x0 + w))%Q
  | Circle (cx, _) r => (cx - Qabs r, cx + Qabs r)%Q
  end.

Definition y_extent (p : Patch) : Q * Q :=
  match p with
  | FancyBboxPatch (_, y0) _ h => (Qmin y0 (y0 + h), Qmax y0 (y0 + h))%Q
  | Circle (_, cy) r => (cy - Qabs r, cy + Qabs r)%Q
  end.

Definition span (extent : Patch -> Q * Q) (c : CellPatches) : Q :=
  let a := extent (patch (rect c)) in
  let b := extent (patch (left_cap c)) in
  let d := extent (patch (right_cap c)) in
  (Qmax (snd a) (Qmax (snd b) (snd d))
   - Qmin (fst a) (Qmin (fst b) (fst d)))%Q.

(** End-to-end length (along the local X axis) and width (along local Y). *)
Definition capsule_length (c : CellPatches) : Q := span x_extent c.
Definition capsule_width (c : CellPatches) : Q := span y_extent c.

(** A bound attained in the column. *)
Definition is_min (m : Q) (col : list Q) : Prop :=
  In m col /\ forall x, In x col -> (m <= x)%Q.

Definition is_max (m : Q) (col : list Q) : Prop :=
  In m col /\ forall x, In x col -> (x <= m)%Q.

(** The cleaning of one raw row, end to end: dropped, kept (and as what),
    or the row on which [astype(int)] raises. *)
Inductive Cleaned : Type :=
| Dropped
| Kept (r : Row Z)
| Fails.

Definition clean_row (lib : Library) (r : Row value) : Cleaned :=
  if existsb isna (row_values r) then Dropped
  else if existsb contains_hash (row_values r) then Dropped
  else match to_numeric lib (tick_num r) with
       | NaN => Dropped
       | Num q => Kept (set_tick r (int64_of lib q))
       | _ => Fails
       end.

(** The rows kept, in order, unless one row fails. *)
Fixpoint clean_all (lib : Library) (raw : DataFrame value)
  : option (DataFrame Z) :=
  match raw with
  | [] => Some []
  | r :: rest =>
      match clean_row lib r, clean_all lib rest with
      | Fails, _ => None
      | _, None => None
      | Dropped, Some df => Some df
      | Kept r', Some df => Some (r' :: df)
      end
  end.

(** A row on which [astype(int)] raises: it passes the two separator
    filters and its tick reads as an infinity. *)
Definition infinite_tick (lib : Library) (r : Row value) : Prop :=
  existsb isna (row_values r) = false /\
  existsb contains_hash (row_values r) = false /\
  exists n, to_numeric lib (tick_num r) = Inf n.

(** A row with finite numbers in the six numeric columns. *)
Definition numeric_row (r : Row Z) : Prop :=
  forallb is_num (numeric_columns r) = true.

(** The four columns the viewport reads. *)
Definition viewport_cells (r : Row Z) : list value :=
  [pos_X r; pos_Y r; diameter r; length r].

(** ** Worked inputs *)

Definition cell_row {T : Type} (tick : T) (kind : string)
           (px py d l ox oy : Q) : Row T :=
  mkRow tick (Str kind) (Num px) (Num py) (Num d) (Num l) (Num ox) (Num oy) [].

(** The two-tick scenario: one cell of diameter 1 and length 3, at (0,0)
    heading (1,0) at tick 0 and at (5,0) heading (0,1) at tick 1. *)
Definition scenario : DataFrame value :=
  [ cell_row (Num 0) "cell" 0 0 1 3 1 0;
    cell_row (Num 1) "cell" 5 0 1 3 0 1 ].

(** A separator line of the upstream writer, as pandas reads it. *)
Definition separator_row : Row value :=
  mkRow (Str "#####") NaN NaN NaN NaN NaN NaN NaN [].

(** A file with nothing but the header and one separator. *)
Definition only_separator : DataFrame value := [separator_row].

(** One cell whose diameter and length are negative. *)
Definition negative_size : DataFrame value :=
  [ cell_row (Num 0) "cell" 0 0 (-1) (-1) 1 0 ].

(** One row whose [pos_X] is text that is no number. *)
Definition bad_pos_X_row : Row value :=
  mkRow (Num 0) (Str "cell") (Str "abc") (Num 0) (Num 1) (Num 3)
        (Num 1) (Num 0) [].

Definition bad_pos_X : DataFrame value := [bad_pos_X_row].

(** Ticks out of order and repeated, as text, with a separator between. *)
Definition shuffled : DataFrame value :=
  [ cell_row (Str "2") "cell" 1 1 1 2 1 0;
    separator_row;
    cell_row (Str "0") "eps" 4 4 1 1 0 0;
    cell_row (Str "2") "eps" 3 2 1 1 0 0;
    cell_row (Str "1") "cell" 0 0 1 2 0 1 ].

(** The cleaned forms of two of the inputs. *)
Definition shuffled_clean : DataFrame Z :=
  [ cell_row 2 "cell" 1 1 1 2 1 0;
    cell_row 0 "eps" 4 4 1 1 0 0;
    cell_row 2 "eps" 3 2 1 1 0 0;
    cell_row 1 "cell" 0 0 1 2 0 1 ].

Definition negative_size_clean : DataFrame Z :=
  [ cell_row 0 "cell" 0 0 (-1) (-1) 1 0 ].

(** One valid row and one row whose tick reads as an infinity. *)
Definition infinite_tick_file : DataFrame value :=
  [ cell_row (Str "0") "cell" 0 0 1 3 1 0;
    cell_row (Str "inf") "cell" 5 0 1 3 0 1 ].

(** Cleaned records of the viewer in which an earlier tick has text in an
    orientation column, and the last tick has two records. *)
Definition text_in_earlier_tick : DataFrame Z :=
  [ mkRow 0 (Str "cell") (Num 50) (Num 50) (Num 1) (Num 3)
          (Str "east") (Num 0) [];
    cell_row 1 "cell" 1 0 1 2 1 0;
    cell_row 1 "eps" 9 (-2) 1 1 0 0 ].


(** ** Choosing the part file (the main block of visualisation_app.py) *)

(** [s.startswith(p)] and [s.endswith(p)]. *)
Definition startswith (p s : string) : bool := prefix p s.

Definition endswith (p s : string) : bool :=
  let n := String.length s in
  let m := String.length p in
  (m <=? n)%nat && String.eqb (substring (n - m) m s) p.

(** [s.split(sep)[0]]: the text before the first [sep], all of [s] when
    there is none. *)
Definition split_first (sep s : string) : string :=
  match index 0 sep s with
  | None => s
  | Some i => substring 0 i s
  end.

(** [s.split(sep)[1]]: the text between the first and the second [sep];
    [None] is the [IndexError] when [sep] does not occur. *)
Definition split_second (sep s : string) : option string :=
  match index 0 sep s with
  | None => None
  | Some i =>
      let start := (i + String.length sep)%nat in
      Some (split_first sep (substring start (String.length s - start) s))
  end.

Definition part_prefix : string := "simulation_output_part_".

(** The test of the loop over [os.listdir(input_dir)]. *)
Definition is_part_file (file : string) : bool :=
  startswith part_prefix file && endswith ".csv" file.

(** [list.sort(key=...)] on files already paired with their keys:
    ascending, and stable. *)
Fixpoint insert_by_key (x : Z * string) (l : list (Z * string))
  : list (Z * string) :=
  match l with
  | [] => [x]
  | y :: rest =>
      if fst x <=? fst y then x :: l else y :: insert_by_key x rest
  end.

Fixpoint sort_by_key (l : list (Z * string)) : list (Z * string) :=
  match l with
  | [] => []
  | x :: rest => insert_by_key x (sort_by_key rest)
  end.

(** The order of the sort: by key. *)
Definition key_le (a b : Z * string) : Prop := fst a <= fst b.

Inductive Selection : Type :=
| NoPartFiles
| KeyRaised
| Chosen (file : string).

Section PartFiles.

(** Python's [int(text)]; [None] is its [ValueError]. *)
Variable py_int : string -> option Z.

(** The sort key: [int(x.split('_part_')[1].split('.')[0])]. *)
Definition part_number (x : string) : option Z :=
  match split_second "_part_" x with
  | None => None
  | Some segment => py_int (split_first "." segment)
  end.

Definition with_key (x : string) : option (Z * string) :=
  match part_number x with
  | Some k => Some (k, x)
  | None => None
  end.

(** Lines 282-297.  [listing] is [os.listdir(input_dir)], [None] when the
    directory does not exist.  [NoPartFiles] is the [exit(1)]; [KeyRaised]
    an exception in the sort key. *)
Definition select_part_file (listing : option (list string)) : Selection :=
  let part_files :=
    match listing with
    | None => []
    | Some files => filter is_part_file files
    end in
  match part_files with
  | [] => NoPartFiles
  | _ :: _ =>
      match traverse with_key part_files with
      | None => KeyRaised
      | Some keyed => Chosen (snd (last (sort_by_key keyed) (0, ""%string)))
      end
  end.

End PartFiles.

(** A reader of plain digit strings, to run the selection with. *)
Definition read_nat (s : string) : option Z :=
  match s with
  | EmptyString => None
  | String _ _ =>
      match read_digits s 0 1 true false with
      | Some q => Some (Qnum q)
      | None => None
      end
  end.

(** ** create_video.py *)

(** The exit status of a run of a script: 0 after the last line, 1 after
    [exit(1)] or an uncaught exception. *)
Definition process_status {A : Type} (r : Run A) : Z :=
  match r with
  | Completed _ _ _ => 0
  | Exit1 _ => 1
  | Traceback _ _ => 1
  end.

Section CreateVideo.

Variable lib : Library.

(** video_visualization.py as a process; [None] is a missing CSV file. *)
Definition video_process (file : option (DataFrame value))
           (ffmpeg pillow : save_result) : Z :=
  match file with
  | None => 1
  | Some raw => process_status (video_script lib raw ffmpeg pillow)
  end.

(** [main] of create_video.py: [subprocess.run(..., check=True)] raises
    [CalledProcessError] on a status other than 0, and [main] then
    returns 1. *)
Definition create_video_main (file : option (DataFrame value))
           (ffmpeg pillow : save_result) : Z :=
  if video_process file ffmpeg pillow =? 0 then 0 else 1.

End CreateVideo.

(** * Properties *)

(** ** Cleaning *)

Section CleaningFacts.

Variable lib : Library.

Lemma to_numeric_float (v : value) : exists x, to_numeric lib v = Flt x.
Proof.
  destruct v as [x | s]; simpl; [now exists x |].
  destruct (scan lib s) as [x |]; eauto.
Qed.

Lemma to_numeric_isna_is_number (v : value) :
  isna (to_numeric lib v) = negb (is_number (to_numeric lib v)).
Proof.
  destruct (to_numeric_float v) as [[q | n |] E]; now rewrite E.
Qed.

(** The five shared statements do, row by row, what [clean_row] does, and
    raise when one row fails. *)
Lemma load_common_spec (raw : DataFrame value) :
  load_common lib raw = clean_all lib raw.
Proof.
  unfold load_common, dropna, drop_separators, coerce_tick, dropna_tick.
  induction raw as [| r raw IH]; [reflexivity |].
  cbn [filter clean_all]. unfold clean_row at 1.
  destruct (existsb isna (row_values r)); cbn [negb filter];
    [rewrite IH; now destruct (clean_all lib raw) |].
  destruct (existsb contains_hash (row_values r)); cbn [negb filter];
    [rewrite IH; now destruct (clean_all lib raw) |].
  cbn [map filter]. cbn [set_tick tick_num].
  destruct (to_numeric_float (tick_num r)) as [[q | n |] E]; rewrite E;
    cbn [isna negb].
  - cbn [astype_int_col tick_num astype_int]. now rewrite IH.
  - cbn [astype_int_col tick_num astype_int]. reflexivity.
  - rewrite IH. now destruct (clean_all lib raw).
Qed.

Lemma clean_all_none (raw : DataFrame value) :
  clean_all lib raw = None <-> exists r, In r raw /\ clean_row lib r = Fails.
Proof.
  induction raw as [| r raw IH]; simpl.
  - split; [discriminate | intros [r [[] _]]].
  - destruct (clean_row lib r) as [| r' |] eqn:E.
    + destruct (clean_all lib raw) as [df |].
      * split; [discriminate |]. intros [x [[<- | Hx] Hf]]; [congruence |].
        exfalso. assert (H : Some df = None) by (apply IH; eauto).
        discriminate.
      * split; [| reflexivity]. intros _.
        destruct (proj1 IH eq_refl) as [x [Hx Hf]]. eauto.
    + destruct (clean_all lib raw) as [df |].
      * split; [discriminate |]. intros [x [[<- | Hx] Hf]]; [congruence |].
        exfalso. assert (H : Some df = None) by (apply IH; eauto).
        discriminate.
      * split; [| reflexivity]. intros _.
        destruct (proj1 IH eq_refl) as [x [Hx Hf]]. eauto.
    + split; [| reflexivity]. intros _. exists r. auto.
Qed.

Lemma clean_all_In (raw : DataFrame value) (df : DataFrame Z) (r : Row Z) :
  clean_all lib raw = Some df ->
  (In r df <-> exists r0, In r0 raw /\ clean_row lib r0 = Kept r).
Proof.
  revert df. induction raw as [| a raw IH]; intros df H; simpl in H.
  - injection H as <-. split; [intros [] | intros [r0 [[] _]]].
  - destruct (clean_row lib a) as [| a' |] eqn:E; try discriminate;
      destruct (clean_all lib raw) as [df' |]; try discriminate;
      injection H as <-; specialize (IH df' eq_refl).
    + rewrite IH. split; intros [r0 [Hin Hk]].
      * exists r0. split; [now right | exact Hk].
      * destruct Hin as [<- | Hin]; [congruence | eauto].
    + simpl. rewrite IH. split.
      * intros [<- | [r0 [Hin Hk]]]; [exists a; split; [now left | exact E] |].
        exists r0. split; [now right | exact Hk].
      * intros [r0 [[<- | Hin] Hk]]; [left; congruence | right; eauto].
Qed.

Lemma clean_row_fails (r : Row value) :
  clean_row lib r = Fails <-> infinite_tick lib r.
Proof.
  unfold clean_row, infinite_tick.
  destruct (existsb isna (row_values r));
    [split; [discriminate | intros [H _]; discriminate] |].
  destruct (existsb contains_hash (row_values r));
    [split; [discriminate | intros [_ [H _]]; discriminate] |].
  destruct (to_numeric_float (tick_num r)) as [[q | n |] E]; rewrite E.
  - split; [discriminate | intros (_ & _ & n & H); discriminate].
  - split; [eauto | reflexivity].
  - split; [discriminate | intros (_ & _ & n & H); discriminate].
Qed.

Lemma clean_row_kept (r0 : Row value) (r : Row Z) :
  clean_row lib r0 = Kept r <->
  existsb isna (row_values r0) = false /\
  existsb contains_hash (row_values r0) = false /\
  exists q, to_numeric lib (tick_num r0) = Num q /\
            r = set_tick r0 (int64_of lib q).
Proof.
  unfold clean_row.
  destruct (existsb isna (row_values r0));
    [split; [discriminate | intros [H _]; discriminate] |].
  destruct (existsb contains_hash (row_values r0));
    [split; [discriminate | intros [_ [H _]]; discriminate] |].
  destruct (to_numeric_float (tick_num r0)) as [[q | n |] E]; rewrite E.
  - split.
    + intros [= <-]. eauto.
    + intros (_ & _ & q' & [= <-] & ->). reflexivity.
  - split; [discriminate | intros (_ & _ & q & H & _); discriminate].
  - split; [discriminate | intros (_ & _ & q & H & _); discriminate].
Qed.

Lemma load_video_spec (raw : DataFrame value) :
  load_video lib raw =
  match clean_all lib raw with
  | Some df => Some (dropna_numeric (coerce_numeric lib df))
  | None => None
  end.
Proof.
  unfold load_video. now rewrite load_common_spec.
Qed.

(** When the loaders raise: exactly on a row with an infinite tick. *)
Lemma load_common_none (raw : DataFrame value) :
  load_common lib raw = None <-> exists r0, In r0 raw /\ infinite_tick lib r0.
Proof.
  rewrite load_common_spec, clean_all_none.
  split; intros [r [Hr H]]; exists r; split; auto; now apply clean_row_fails.
Qed.

Lemma load_video_none (raw : DataFrame value) :
  load_video lib raw = None <-> exists r0, In r0 raw /\ infinite_tick lib r0.
Proof.
  rewrite <- load_common_none. unfold load_video.
  destruct (load_common lib raw); split; congruence.
Qed.

(** Every row the video loader keeps has floats that are not missing in
    its six numeric columns. *)
Lemma load_video_numeric (raw : DataFrame value) (df : DataFrame Z)
      (r : Row Z) :
  load_video lib raw = Some df -> In r df ->
  forallb is_number (numeric_columns r) = true.
Proof.
  rewrite load_video_spec. destruct (clean_all lib raw) as [df0 |];
    [| discriminate].
  intros [= <-] Hin.
  unfold dropna_numeric in Hin. apply filter_In in Hin as [Hin Hna].
  unfold coerce_numeric in Hin. apply in_map_iff in Hin as [r0 [<- _]].
  revert Hna. unfold numeric_columns; cbn [pos_X pos_Y diameter length
    orientation_X orientation_Y existsb forallb].
  rewrite !to_numeric_isna_is_number.
  repeat match goal with
         | |- context [is_number ?v] => destruct (is_number v)
         end; cbn; congruence.
Qed.

End CleaningFacts.

(** C4, as amended.  The video loader raises (and the script exits with
    status 1) exactly when a row that passes the separator filters has a
    tick that reads as an infinity.  Whenever it returns, every record in
    the collection comes from a raw row whose seven numeric fields all
    coerced to numbers: [tick_num] is the int64 cast of the coerced tick, a
    finite number (its integer part when that lies in int64), and the six
    other columns hold the coerced floats, none of them missing.  Nothing
    is promised about the sign of [diameter]. *)
Theorem video_survivors_are_numeric (lib : Library) (raw : DataFrame value) :
  (load_video lib raw = None <->
   exists r0, In r0 raw /\ infinite_tick lib r0) /\
  forall df,
    load_video lib raw = Some df ->
    forall r, In r df ->
      forallb is_number (numeric_columns r) = true /\
      exists r0 q,
        In r0 raw /\
        to_numeric lib (tick_num r0) = Num q /\
        tick_num r = int64_of lib q /\
        (in_int64 (Qtrunc q) = true -> tick_num r = Qtrunc q) /\
        agent_type r = agent_type r0 /\
        pos_X r = to_numeric lib (pos_X r0) /\
        pos_Y r = to_numeric lib (pos_Y r0) /\
        diameter r = to_numeric lib (diameter r0) /\
        length r = to_numeric lib (length r0) /\
        orientation_X r = to_numeric lib (orientation_X r0) /\
        orientation_Y r = to_numeric lib (orientation_Y r0).
Proof.
  split; [apply load_video_none |].
  intros df Hload r Hin. split.
  - eapply load_video_numeric; eauto.
  - rewrite load_video_spec in Hload.
    destruct (clean_all lib raw) as [df0 |] eqn:Hc; [| discriminate].
    injection Hload as <-.
    unfold dropna_numeric in Hin. apply filter_In in Hin as [Hin _].
    unfold coerce_numeric in Hin. apply in_map_iff in Hin as [r1 [<- Hin]].
    apply (clean_all_In lib raw df0 r1 Hc) in Hin as [r0 [Hraw Hclean]].
    apply clean_row_kept in Hclean as (_ & _ & q & Hq & ->).
    exists r0, q. cbn. repeat split; auto.
    intros Hr. unfold int64_of. now rewrite Hr.
Qed.

Lemma video_survivors_are_numeric_witness :
  load_video plain_library infinite_tick_file = None /\
  forallb is_number
          (numeric_columns (cell_row (T := Z) 1 "cell" 0 0 1 2 0 1)) = true.
Proof.
  split.
  - apply (video_survivors_are_numeric plain_library infinite_tick_file).
    exists (cell_row (Str "inf") "cell" 5 0 1 3 0 1). split.
    + simpl. auto.
    + repeat split. now exists false.
  - apply (proj2 (video_survivors_are_numeric plain_library shuffled)
                 shuffled_clean eq_refl).
    simpl. auto.
Defined.

(** C4, as stated, fails: a row with diameter -1 survives the video
    loader. *)
Lemma negative_diameter_survives :
  exists df r,
    load_video plain_library negative_size = Some df /\
    In r df /\ diameter r = Num (-1) /\ ~ (0 < -1)%Q.
Proof.
  exists [cell_row 0 "cell" 0 0 (-1) (-1) 1 0],
         (cell_row 0 "cell" 0 0 (-1) (-1) 1 0).
  repeat split.
  - now left.
  - intros H. discriminate H.
Qed.

(** C10 at the failing input: a row whose [pos_X] reads "abc" is dropped by
    the video loader and kept, text and all, by the viewer's loader. *)
Theorem loaders_disagree_on_bad_pos_X :
  load_video plain_library bad_pos_X = Some [] /\
  load_data plain_library bad_pos_X = Some [set_tick bad_pos_X_row 0].
Proof.
  split; reflexivity.
Qed.

(** ** Tick index *)

Lemma insert_sorted_In (x y : Z) (l : list Z) :
  In y (insert_sorted x l) <-> y = x \/ In y l.
Proof.
  induction l as [| a l IH]; simpl.
  - intuition.
  - destruct (x <=? a); simpl; [intuition | rewrite IH; intuition].
Qed.

Lemma sorted_In (y : Z) (l : list Z) : In y (sorted l) <-> In y l.
Proof.
  induction l as [| a l IH]; simpl; [tauto |].
  rewrite insert_sorted_In, IH. intuition.
Qed.

Lemma unique_In (y : Z) (l : list Z) : In y (unique l) <-> In y l.
Proof.
  induction l as [| a l IH]; simpl; [tauto |].
  rewrite filter_In, IH, negb_true_iff, Z.eqb_neq.
  destruct (Z.eq_dec y a); intuition.
Qed.

Lemma NoDup_filter {A : Type} (f : A -> bool) (l : list A) :
  NoDup l -> NoDup (filter f l).
Proof.
  induction 1 as [| a l Hnin Hnd IH]; simpl; [constructor |].
  destruct (f a); [constructor |]; auto.
  rewrite filter_In. tauto.
Qed.

Lemma unique_NoDup (l : list Z) : NoDup (unique l).
Proof.
  induction l as [| a l IH]; simpl; constructor.
  - rewrite filter_In, negb_true_iff, Z.eqb_neq. tauto.
  - now apply NoDup_filter.
Qed.

Lemma insert_sorted_strict (x : Z) (l : list Z) :
  StronglySorted Z.lt l -> ~ In x l ->
  StronglySorted Z.lt (insert_sorted x l).
Proof.
  induction 1 as [| a l Hs IH Hall]; simpl; intros Hnin.
  - repeat constructor.
  - destruct (x <=? a) eqn:E.
    + apply Z.leb_le in E.
      assert (x < a) by (assert (a <> x) by tauto; lia).
      constructor; [now constructor |].
      constructor; [assumption |].
      eapply Forall_impl; [| exact Hall]. intros; lia.
    + apply Z.leb_gt in E. constructor; [apply IH; tauto |].
      rewrite Forall_forall in *. intros y Hy.
      apply insert_sorted_In in Hy as [-> | Hy]; auto.
Qed.

Lemma sorted_strict (l : list Z) :
  NoDup l -> StronglySorted Z.lt (sorted l).
Proof.
  induction 1 as [| a l Hnin Hnd IH]; simpl; [constructor |].
  apply insert_sorted_strict; [assumption |]. now rewrite sorted_In.
Qed.

Lemma strict_NoDup (l : list Z) : StronglySorted Z.lt l -> NoDup l.
Proof.
  induction 1 as [| a l Hs IH Hall]; constructor; [| assumption].
  intros Hin. rewrite Forall_forall in Hall. specialize (Hall a Hin). lia.
Qed.

Lemma time_steps_strict (df : DataFrame Z) :
  StronglySorted Z.lt (time_steps df).
Proof.
  apply sorted_strict, unique_NoDup.
Qed.

Lemma time_steps_In (df : DataFrame Z) (t : Z) :
  In t (time_steps df) <-> exists r, In r df /\ tick_num r = t.
Proof.
  unfold time_steps. rewrite sorted_In, unique_In, in_map_iff.
  split; intros [r [H1 H2]]; exists r; auto.
Qed.

(** C5.  Whatever the order and the repetitions of the tick values in the
    record collection, the tick sequence is strictly increasing, has no
    duplicates and holds exactly the ticks that occur; the empty
    collection gives the empty sequence. *)
Theorem time_steps_sorted_distinct :
  (forall df : DataFrame Z,
      StronglySorted Z.lt (time_steps df) /\
      NoDup (time_steps df) /\
      forall t, In t (time_steps df) <-> exists r, In r df /\ tick_num r = t) /\
  time_steps [] = [].
Proof.
  split.
  - intros df. split; [apply time_steps_strict |].
    split; [apply strict_NoDup, time_steps_strict | apply time_steps_In].
  - reflexivity.
Qed.

(** ** Frames in tick order *)

Lemma insert_sorted_count (p : Z -> bool) (x : Z) (l : list Z) :
  List.length (filter p (insert_sorted x l)) = List.length (filter p (x :: l)).
Proof.
  induction l as [| a l IH]; [reflexivity |].
  simpl insert_sorted. destruct (x <=? a); [reflexivity |].
  simpl in *. destruct (p a), (p x); simpl in *; lia.
Qed.

Lemma sorted_count (p : Z -> bool) (l : list Z) :
  List.length (filter p (sorted l)) = List.length (filter p l).
Proof.
  induction l as [| a l IH]; [reflexivity |].
  simpl sorted. rewrite insert_sorted_count. simpl.
  destruct (p a); simpl; lia.
Qed.

Lemma filter_all {A : Type} (l : list A) : filter (fun _ => true) l = l.
Proof.
  induction l as [| a l IH]; simpl; congruence.
Qed.

Lemma sorted_length (l : list Z) : List.length (sorted l) = List.length l.
Proof.
  pose proof (sorted_count (fun _ => true) l) as H.
  now rewrite !filter_all in H.
Qed.

Lemma filter_none {A : Type} (p : A -> bool) (l : list A) :
  (forall x, In x l -> p x = false) -> filter p l = [].
Proof.
  induction l as [| a l IH]; intros H; [reflexivity |].
  simpl. rewrite (H a) by now left. apply IH. intros x Hx. apply H. now right.
Qed.

(** In a strictly increasing list the entry at index [N] has exactly [N]
    entries below it. *)
Lemma strict_nth_rank (l : list Z) :
  StronglySorted Z.lt l ->
  forall N t, nth_error l N = Some t ->
              List.length (filter (fun x => x <? t) l) = N.
Proof.
  induction 1 as [| a l Hs IH Hall]; intros N t Hn.
  - destruct N; discriminate.
  - rewrite Forall_forall in Hall. destruct N as [| N]; simpl in Hn.
    + injection Hn as ->. simpl. rewrite Z.ltb_irrefl.
      rewrite filter_none; [reflexivity |].
      intros x Hx. specialize (Hall x Hx). apply Z.ltb_ge. lia.
    + assert (a < t) by (apply Hall; eapply nth_error_In; eauto).
      simpl. rewrite (proj2 (Z.ltb_lt a t)) by assumption.
      simpl. f_equal. now apply IH.
Qed.

Lemma traverse_total {A B : Type} (f : A -> option B) (l : list A) :
  (forall x, In x l -> exists y, f x = Some y) ->
  exists ys, traverse f l = Some ys.
Proof.
  induction l as [| a l IH]; intros H; simpl.
  - now exists [].
  - destruct (H a) as [y Hy]; [now left |].
    destruct IH as [ys Hys]; [intros x Hx; apply H; now right |].
    rewrite Hy, Hys. now exists (y :: ys).
Qed.

Lemma numeric_row_cells (r : Row Z) :
  numeric_row r ->
  exists px py d l ox oy,
    pos_X r = Num px /\ pos_Y r = Num py /\ diameter r = Num d /\
    length r = Num l /\ orientation_X r = Num ox /\ orientation_Y r = Num oy.
Proof.
  unfold numeric_row, numeric_columns. cbn [forallb].
  rewrite !andb_true_iff.
  destruct (pos_X r) as [[px | |] |]; try (cbn; intuition discriminate).
  destruct (pos_Y r) as [[py | |] |]; try (cbn; intuition discriminate).
  destruct (diameter r) as [[d | |] |]; try (cbn; intuition discriminate).
  destruct (length r) as [[l | |] |]; try (cbn; intuition discriminate).
  destruct (orientation_X r) as [[ox | |] |];
    try (cbn; intuition discriminate).
  destruct (orientation_Y r) as [[oy | |] |];
    try (cbn; intuition discriminate).
  intros _. now exists px, py, d, l, ox, oy.
Qed.

Lemma shuffled_clean_numeric (r : Row Z) : In r shuffled_clean -> numeric_row r.
Proof.
  intros H. simpl in H.
  repeat (destruct H as [<- | H]; [reflexivity |]). destruct H.
Qed.

Section DriverFacts.

Variable lib : Library.

Lemma animate_eps_numeric (r : Row Z) (d px py : Q) :
  diameter r = Num d -> pos_X r = Num px -> pos_Y r = Num py ->
  animate_eps lib r = Some [draw_eps d px py].
Proof.
  intros E1 E2 E3. unfold animate_eps. now rewrite E1, E2, E3.
Qed.

Lemma animate_cell_numeric (r : Row Z) (w l ox oy px py : Q) :
  diameter r = Num w -> length r = Num l ->
  orientation_X r = Num ox -> orientation_Y r = Num oy ->
  pos_X r = Num px -> pos_Y r = Num py ->
  animate_cell lib r = Some (patches_of (draw_cell w l ox oy px py)).
Proof.
  intros E1 E2 E3 E4 E5 E6. unfold animate_cell.
  now rewrite E1, E2, E3, E4, E5, E6.
Qed.

Lemma animate_eps_total (r : Row Z) :
  numeric_row r ->
  exists a, animate_eps lib r = Some a /\ List.length a = 1%nat.
Proof.
  intros H. destruct (numeric_row_cells r H)
    as (px & py & d & l & ox & oy & E1 & E2 & E3 & E4 & E5 & E6).
  rewrite (animate_eps_numeric r d px py) by assumption. eauto.
Qed.

Lemma animate_cell_total (r : Row Z) :
  numeric_row r ->
  exists c, animate_cell lib r = Some c /\ List.length c = 3%nat.
Proof.
  intros H. destruct (numeric_row_cells r H)
    as (px & py & d & l & ox & oy & E1 & E2 & E3 & E4 & E5 & E6).
  rewrite (animate_cell_numeric r d l ox oy px py) by assumption. eauto.
Qed.

(** What [animate] draws does not depend on what was on the axes. *)
Lemma animate_fresh (df : DataFrame Z) (ts : list Z) (i : nat) (ax : Axes) :
  animate lib df ts i ax = animate lib df ts i initial_axes.
Proof.
  reflexivity.
Qed.

(** [animate] at an index of the tick sequence draws the rows of the tick
    at that index, and raises when one of them does. *)
Lemma animate_at (df : DataFrame Z) (ts : list Z) (i : nat) (tick : Z)
      (ax : Axes) :
  nth_error ts i = Some tick ->
  animate lib df ts i ax =
  match traverse (animate_eps lib)
                 (filter (fun r => value_is "eps" (agent_type r))
                         (filter (fun r => tick_num r =? tick) df)),
        traverse (animate_cell lib)
                 (filter (fun r => value_is "cell" (agent_type r))
                         (filter (fun r => tick_num r =? tick) df)) with
  | Some es, Some cs =>
      Some (mkAxes (TitleTick tick) (List.concat es) (List.concat cs))
  | _, _ => None
  end.
Proof.
  intros Hn. unfold animate, rows_at. rewrite Hn. reflexivity.
Qed.

(** On rows of finite numbers every drawing succeeds. *)
Lemma traverse_eps_numeric (rows : DataFrame Z) :
  (forall r, In r rows -> numeric_row r) ->
  exists es, traverse (animate_eps lib) rows = Some es /\
             List.length (List.concat es) = List.length rows.
Proof.
  induction rows as [| r rows IH]; intros H; simpl.
  - now exists [].
  - destruct (animate_eps_total r) as (a & Ha & La); [apply H; now left |].
    destruct IH as (es & Hes & Les); [intros x Hx; apply H; now right |].
    rewrite Ha, Hes. exists (a :: es). split; [reflexivity |].
    simpl. rewrite length_app, La, Les. reflexivity.
Qed.

Lemma traverse_cell_numeric (rows : DataFrame Z) :
  (forall r, In r rows -> numeric_row r) ->
  exists cs, traverse (animate_cell lib) rows = Some cs /\
             List.length (List.concat cs) = (3 * List.length rows)%nat.
Proof.
  induction rows as [| r rows IH]; intros H; simpl.
  - now exists [].
  - destruct (animate_cell_total r) as (a & Ha & La); [apply H; now left |].
    destruct IH as (cs & Hcs & Lcs); [intros x Hx; apply H; now right |].
    rewrite Ha, Hcs. exists (a :: cs). split; [reflexivity |].
    simpl. rewrite length_app, La, Lcs. lia.
Qed.

(** On records of finite numbers [animate] draws the rows of the tick at
    its index. *)
Lemma animate_numeric (df : DataFrame Z) (ts : list Z) (i : nat) (tick : Z) :
  (forall r, In r df -> numeric_row r) ->
  nth_error ts i = Some tick ->
  exists es cs,
    traverse (animate_eps lib)
             (filter (fun r => value_is "eps" (agent_type r))
                     (rows_at df tick)) = Some es /\
    List.length (List.concat es)
    = List.length (filter (fun r => value_is "eps" (agent_type r))
                          (rows_at df tick)) /\
    traverse (animate_cell lib)
             (filter (fun r => value_is "cell" (agent_type r))
                     (rows_at df tick)) = Some cs /\
    List.length (List.concat cs)
    = (3 * List.length (filter (fun r => value_is "cell" (agent_type r))
                               (rows_at df tick)))%nat /\
    animate lib df ts i initial_axes =
    Some (mkAxes (TitleTick tick) (List.concat es) (List.concat cs)).
Proof.
  intros Hnum Hn.
  destruct (traverse_eps_numeric
              (filter (fun r => value_is "eps" (agent_type r))
                      (rows_at df tick))) as (es & Hes & Les).
  { intros r Hr. apply Hnum.
    apply filter_In in Hr as [Hr _]. unfold rows_at in Hr.
    now apply filter_In in Hr as [Hr _]. }
  destruct (traverse_cell_numeric
              (filter (fun r => value_is "cell" (agent_type r))
                      (rows_at df tick))) as (cs & Hcs & Lcs).
  { intros r Hr. apply Hnum.
    apply filter_In in Hr as [Hr _]. unfold rows_at in Hr.
    now apply filter_In in Hr as [Hr _]. }
  exists es, cs. repeat split; try assumption.
  unfold animate. rewrite Hn, Hes, Hcs. reflexivity.
Qed.

(** The driver calls [draw] once per index, in the order of the list, and
    keeps what each call drew. *)
Lemma grab_frames_spec (draw : nat -> Axes -> option Axes)
      (frames : list nat) :
  (forall i ax, draw i ax = draw i initial_axes) ->
  (forall i, In i frames -> exists a, draw i initial_axes = Some a) ->
  forall ax, exists grabbed, grab_frames draw frames ax = Some grabbed.
Proof.
  intros Hfresh. induction frames as [| j frames IH]; intros Hok ax.
  - now exists [].
  - destruct (Hok j) as [a Ha]; [now left |].
    destruct (IH (fun i Hi => Hok i (or_intror Hi)) a) as (g & Hg).
    exists (a :: g). simpl. now rewrite Hfresh, Ha, Hg.
Qed.

(** When the driver returns, it returns one frame per index, each the
    drawing of its index. *)
Lemma grab_frames_some (draw : nat -> Axes -> option Axes)
      (frames : list nat) :
  (forall i ax, draw i ax = draw i initial_axes) ->
  forall ax grabbed,
    grab_frames draw frames ax = Some grabbed ->
    List.length grabbed = List.length frames /\
    forall k i, nth_error frames k = Some i ->
                nth_error grabbed k = draw i initial_axes.
Proof.
  intros Hfresh. induction frames as [| j frames IH]; intros ax grabbed H.
  - injection H as <-. split; [reflexivity |].
    intros [| k] i Hk; discriminate.
  - simpl in H. rewrite Hfresh in H.
    destruct (draw j initial_axes) as [a |] eqn:Ea; [| discriminate].
    destruct (grab_frames draw frames a) as [g |] eqn:Eg; [| discriminate].
    injection H as <-. destruct (IH a g Eg) as [Hl Hn]. split.
    + simpl. now rewrite Hl.
    + intros [| k] i Hk; simpl in *.
      * injection Hk as <-. now rewrite Ea.
      * now apply Hn.
Qed.

Lemma nth_error_seq0 (n k : nat) :
  (k < n)%nat -> nth_error (seq 0 n) k = Some k.
Proof.
  intros H. rewrite (nth_error_nth' _ 0%nat) by now rewrite length_seq.
  now rewrite seq_nth.
Qed.

End DriverFacts.

(** C7.  In video mode, for every dataset: whenever the animation is
    saved it has exactly one frame per distinct tick, and on records of
    finite numbers it is always saved.  For every index N below the
    number of distinct ticks, the tick at position N of the sorted
    sequence has exactly N distinct ticks of the dataset below it, what
    [animate] draws for N is the title of that tick over the patches of
    the EPS and cell records whose tick is that tick, in file order
    (and it raises when one of these records does), and frame N of the
    saved animation is that drawing. *)
Theorem frame_N_is_Nth_smallest_tick (lib : Library) (df : DataFrame Z) :
  let ts := time_steps df in
  let n := List.length (unique (map tick_num df)) in
  (forall frames, saved_frames lib df = Some frames ->
                  List.length frames = n) /\
  ((forall r, In r df -> numeric_row r) ->
   exists frames, saved_frames lib df = Some frames) /\
  forall N, (N < n)%nat ->
    exists tick,
      nth_error ts N = Some tick /\
      List.length
        (filter (fun t => t <? tick) (unique (map tick_num df))) = N /\
      (forall before,
          animate lib df ts N before =
          match traverse (animate_eps lib)
                         (filter (fun r => value_is "eps" (agent_type r))
                                 (filter (fun r => tick_num r =? tick) df)),
                traverse (animate_cell lib)
                         (filter (fun r => value_is "cell" (agent_type r))
                                 (filter (fun r => tick_num r =? tick) df))
          with
          | Some es, Some cs =>
              Some (mkAxes (TitleTick tick) (List.concat es) (List.concat cs))
          | _, _ => None
          end) /\
      forall frames,
        saved_frames lib df = Some frames ->
        nth_error frames N = animate lib df ts N initial_axes.
Proof.
  intros ts n.
  assert (Hlen : List.length ts = n) by apply sorted_length.
  split; [| split].
  - intros frames H.
    destruct (grab_frames_some (animate lib df ts) (seq 0 (List.length ts))
                (animate_fresh lib df ts) initial_axes frames H) as [Hl _].
    now rewrite Hl, length_seq.
  - intros Hnum.
    apply grab_frames_spec; [apply animate_fresh |].
    intros i Hi. apply in_seq in Hi.
    destruct (nth_error (time_steps df) i) as [tick |] eqn:E.
    + destruct (animate_numeric lib df _ i tick Hnum E)
        as (es & cs & _ & _ & _ & _ & Ha). eauto.
    + apply nth_error_None in E. unfold ts in Hi. lia.
  - intros N HN. rewrite <- Hlen in HN.
    destruct (nth_error ts N) as [tick |] eqn:E;
      [| apply nth_error_None in E; lia].
    exists tick. split; [reflexivity |]. split; [| split].
    + rewrite <- (sorted_count (fun t => t <? tick)).
      apply (strict_nth_rank _ (time_steps_strict df) N tick E).
    + intros before. now apply animate_at.
    + intros frames H.
      destruct (grab_frames_some (animate lib df ts) (seq 0 (List.length ts))
                  (animate_fresh lib df ts) initial_axes frames H) as [_ Hn].
      apply Hn. now apply nth_error_seq0.
Qed.

Lemma frame_N_is_Nth_smallest_tick_witness :
  exists frames,
    saved_frames plain_library shuffled_clean = Some frames /\
    List.length frames = 3%nat /\
    nth_error frames 2
    = Some (mkAxes (TitleTick 2) [draw_eps 1 3 2]
                   (patches_of (draw_cell 1 2 1 0 1 1))).
Proof.
  destruct (frame_N_is_Nth_smallest_tick plain_library shuffled_clean)
    as (Hlen & Hex & HN).
  destruct (Hex shuffled_clean_numeric) as [frames Hf].
  exists frames. split; [exact Hf |]. split; [exact (Hlen frames Hf) |].
  destruct (HN 2%nat) as (tick & Ht & _ & Ha & Hfr).
  - vm_compute. lia.
  - rewrite (Hfr frames Hf), Ha.
    injection Ht as <-. reflexivity.
Defined.

(** ** Empty datasets and the encoder chain *)

(** C6 at its failing inputs.  Once cleaning leaves no row, the video
    script stops with an uncaught [IndexError] right after printing the
    number of time steps, before its default-viewport branch; the viewer,
    on the same data, reaches the default box and its warning. *)
Theorem video_script_stops_on_empty_dataset
        (lib : Library) (raw : DataFrame value)
        (ffmpeg pillow : save_result) :
  load_video lib raw = Some [] ->
  video_script lib raw ffmpeg pillow
  = Traceback IndexError [FoundTimeSteps 0]
  /\ setup_plot_bounds [] (time_steps []) = Some (default_bounds, WarnNoTimeSteps)
  /\ (load_data lib raw = Some [] ->
      viewer lib raw
      = Completed [FoundTimeSteps 0; WarnNoTimeSteps] default_bounds
                  NoDataAvailable).
Proof.
  intros H. unfold video_script, viewer. rewrite H. repeat split.
  intros ->. reflexivity.
Qed.

Lemma video_script_stops_on_empty_dataset_witness :
  video_script plain_library only_separator Saved Saved
  = Traceback IndexError [FoundTimeSteps 0].
Proof.
  apply (video_script_stops_on_empty_dataset
           plain_library only_separator Saved Saved eq_refl).
Defined.

(** C9 at its failing input.  With both encoders failing, every step of
    the chain is tried and printed in order, and the last one, [plt.show()],
    runs under the [Agg] backend chosen on line 2: nothing is displayed.
    With only the first encoder failing the GIF is written. *)
Theorem display_fallback_shows_nothing (e e2 : string) :
  save_animation (Raised e) (Raised e2)
  = ([SavingVideo; ErrorSavingVideo e; TryingAlternativeMethod;
      ErrorSavingGif e2; ShowingAnimationInWindow; AnimationComplete],
     Nothing)
  /\ save_animation (Raised e) Saved
     = ([SavingVideo; ErrorSavingVideo e; TryingAlternativeMethod;
         AnimationSavedAsGif gif_filename; AnimationComplete],
        GifFile gif_filename)
  /\ plt_show Gui = Window.
Proof.
  repeat split.
Qed.

(** ** Viewport *)

Lemma Qmin_cases (x y : Q) : Qmin x y = x \/ Qmin x y = y.
Proof.
  unfold Qmin, GenericMinMax.gmin. destruct (x ?= y)%Q; auto.
Qed.

Lemma Qmax_cases (x y : Q) : Qmax x y = x \/ Qmax x y = y.
Proof.
  unfold Qmax, GenericMinMax.gmax. destruct (x ?= y)%Q; auto.
Qed.

Lemma fold_min_spec (l : list Q) (x : Q) : is_min (fold_left Qmin l x) (x :: l).
Proof.
  revert x. induction l as [| a l IH]; intros x; simpl.
  - split; [now left |]. intros y [<- | []]. apply Qle_refl.
  - destruct (IH (Qmin x a)) as [Hin Hle]. split.
    + destruct Hin as [E | Hin]; [| now right; right].
      rewrite <- E. destruct (Qmin_cases x a) as [-> | ->]; simpl; auto.
    + intros y [<- | [<- | Hy]].
      * eapply Qle_trans; [apply Hle; now left | apply Q.le_min_l].
      * eapply Qle_trans; [apply Hle; now left | apply Q.le_min_r].
      * apply Hle. now right.
Qed.

Lemma fold_max_spec (l : list Q) (x : Q) : is_max (fold_left Qmax l x) (x :: l).
Proof.
  revert x. induction l as [| a l IH]; intros x; simpl.
  - split; [now left |]. intros y [<- | []]. apply Qle_refl.
  - destruct (IH (Qmax x a)) as [Hin Hle]. split.
    + destruct Hin as [E | Hin]; [| now right; right].
      rewrite <- E. destruct (Qmax_cases x a) as [-> | ->]; simpl; auto.
    + intros y [<- | [<- | Hy]].
      * eapply Qle_trans; [apply Q.le_max_l | apply Hle; now left].
      * eapply Qle_trans; [apply Q.le_max_r | apply Hle; now left].
      * apply Hle. now right.
Qed.

(** On finite floats [Series.min()] and [Series.max()] are the least and
    the greatest entry. *)
Lemma fold_fmin_finite (l : list Q) (x : Q) :
  fold_left fmin (map Finite l) (Finite x) = Finite (fold_left Qmin l x).
Proof.
  revert x. induction l as [| a l IH]; intros x; [reflexivity |].
  simpl. apply IH.
Qed.

Lemma fold_fmax_finite (l : list Q) (x : Q) :
  fold_left fmax (map Finite l) (Finite x) = Finite (fold_left Qmax l x).
Proof.
  revert x. induction l as [| a l IH]; intros x; [reflexivity |].
  simpl. apply IH.
Qed.

Lemma series_min_finite (qs : list Q) :
  qs <> [] ->
  exists m, series_min (map Finite qs) = Finite m /\ is_min m qs.
Proof.
  destruct qs as [| x l]; [congruence |]. intros _.
  exists (fold_left Qmin l x). split;
    [apply fold_fmin_finite | apply fold_min_spec].
Qed.

Lemma series_max_finite (qs : list Q) :
  qs <> [] ->
  exists m, series_max (map Finite qs) = Finite m /\ is_max m qs.
Proof.
  destruct qs as [| x l]; [congruence |]. intros _.
  exists (fold_left Qmax l x). split;
    [apply fold_fmax_finite | apply fold_max_spec].
Qed.

Lemma py_max_finite (a b : Q) :
  py_max (Finite a) (Finite b) = Finite (Qmax a b).
Proof.
  unfold py_max, flt, Qmax, GenericMinMax.gmax.
  now destruct (a ?= b)%Q.
Qed.

Lemma numbers_total (col : list value) :
  (forall v, In v col -> is_num v = true) ->
  exists qs, numbers col = Some (map Finite qs) /\
             col = map (fun q => Num q) qs.
Proof.
  induction col as [| v col IH]; intros H; simpl.
  - now exists [].
  - destruct IH as (qs & Hqs & ->); [intros w Hw; apply H; now right |].
    specialize (H v (or_introl eq_refl)).
    destruct v as [[q | |] |]; try discriminate.
    simpl. rewrite Hqs. now exists (q :: qs).
Qed.

Lemma last_In (l : list Z) (d : Z) : l <> [] -> In (last l d) l.
Proof.
  induction l as [| a l IH]; [congruence |]. intros _.
  destruct l as [| b l]; [now left |].
  right. apply IH. discriminate.
Qed.

Lemma In_map_Num (x : Q) (qs : list Q) :
  In (Num x) (map (fun q => Num q) qs) -> In x qs.
Proof.
  rewrite in_map_iff. intros [y [[= ->] Hy]]. exact Hy.
Qed.

Lemma time_steps_nonempty (df : DataFrame Z) :
  df <> [] -> time_steps df <> [].
Proof.
  destruct df as [| r0 df']; [congruence |]. intros _ E.
  assert (Hin : In (tick_num r0) (time_steps (r0 :: df')))
    by (apply time_steps_In; exists r0; split; [now left | reflexivity]).
  now rewrite E in Hin.
Qed.

Lemma reference_rows_nonempty (df : DataFrame Z) :
  df <> [] -> rows_at df (last (time_steps df) 0) <> [].
Proof.
  intros Hne.
  pose proof (last_In (time_steps df) 0 (time_steps_nonempty df Hne)) as Hin.
  apply time_steps_In in Hin as [r [Hr Ht]].
  assert (In r (rows_at df (last (time_steps df) 0)))
    by (apply filter_In; split; [exact Hr | now apply Z.eqb_eq]).
  intros E. now rewrite E in *.
Qed.

(** The box around rows whose four viewport cells are finite numbers. *)
Lemma dynamic_bounds_finite (ref : DataFrame Z) :
  ref <> [] ->
  (forall r, In r ref -> forallb is_num (viewport_cells r) = true) ->
  exists xs ys ds ls min_x max_x min_y max_y M,
    map pos_X ref = map (fun q => Num q) xs /\
    map pos_Y ref = map (fun q => Num q) ys /\
    map diameter ref = map (fun q => Num q) ds /\
    map length ref = map (fun q => Num q) ls /\
    numbers (map pos_X ref) = Some (map Finite xs) /\
    numbers (map pos_Y ref) = Some (map Finite ys) /\
    numbers (map diameter ref) = Some (map Finite ds) /\
    numbers (map length ref) = Some (map Finite ls) /\
    is_min min_x xs /\ is_max max_x xs /\
    is_min min_y ys /\ is_max max_y ys /\
    is_max M (ds ++ ls) /\
    dynamic_bounds (map Finite xs) (map Finite ys)
                   (map Finite ds) (map Finite ls)
    = mkBounds (Finite (min_x - M * 2)) (Finite (max_x + M * 2))
               (Finite (min_y - M * 2)) (Finite (max_y + M * 2)).
Proof.
  intros Href Hnum.
  assert (Hcol : forall f : Row Z -> value,
             (forall r, In (f r) (viewport_cells r)) ->
             exists qs, numbers (map f ref) = Some (map Finite qs) /\
                        map f ref = map (fun q => Num q) qs /\ qs <> []).
  { intros f Hf.
    destruct (numbers_total (map f ref)) as (qs & H1 & H2).
    - intros v Hv. apply in_map_iff in Hv as [r [<- Hr]].
      specialize (Hnum r Hr). rewrite forallb_forall in Hnum. apply Hnum, Hf.
    - exists qs. repeat split; try assumption.
      intros ->. destruct ref; [congruence | discriminate]. }
  destruct (Hcol pos_X) as (xs & Nx & Ex & Hx); [intros; simpl; auto |].
  destruct (Hcol pos_Y) as (ys & Ny & Ey & Hy); [intros; simpl; auto |].
  destruct (Hcol diameter) as (ds & Nd & Ed & Hd); [intros; simpl; auto |].
  destruct (Hcol length) as (ls & Nl & El & Hl); [intros; simpl; auto 6 |].
  destruct (series_min_finite xs Hx) as (min_x & Eminx & Hminx).
  destruct (series_max_finite xs Hx) as (max_x & Emaxx & Hmaxx).
  destruct (series_min_finite ys Hy) as (min_y & Eminy & Hminy).
  destruct (series_max_finite ys Hy) as (max_y & Emaxy & Hmaxy).
  destruct (series_max_finite ds Hd) as (md & Emd & [Hdin Hdle]).
  destruct (series_max_finite ls Hl) as (ml & Eml & [Hlin Hlle]).
  exists xs, ys, ds, ls, min_x, max_x, min_y, max_y, (Qmax md ml).
  repeat (split; [assumption |]).
  split.
  { split.
    - apply in_or_app. destruct (Qmax_cases md ml) as [-> | ->]; auto.
    - intros q Hq. apply in_app_or in Hq as [Hq | Hq].
      + eapply Qle_trans; [apply Hdle, Hq | apply Q.le_max_l].
      + eapply Qle_trans; [apply Hlle, Hq | apply Q.le_max_r]. }
  unfold dynamic_bounds.
  rewrite Eminx, Emaxx, Eminy, Emaxy, Emd, Eml, py_max_finite.
  reflexivity.
Qed.


(** C3, as amended.  For a non-empty record collection the reference tick
    (the last of the sorted sequence) has records; when the position,
    diameter and length cells of these records are finite numbers, the
    viewport is [min_x - p, max_x + p] x [min_y - p, max_y + p], where the
    minima and maxima are attained bounds of the positions of the records
    whose tick is the reference tick and p = 2 * M with M the largest
    diameter or length of these records.  Every position of the tick keeps
    a margin of at least p to each edge; the viewport contains the
    position whenever M is not negative.  Nothing is asked of the
    orientation cells, nor of the records of other ticks. *)
Theorem viewport_of_reference_tick (df : DataFrame Z) :
  df <> [] ->
  let ref := filter (fun r => tick_num r =? last (time_steps df) 0) df in
  (forall r, In r ref -> forallb is_num (viewport_cells r) = true) ->
  exists xs ys ds ls min_x max_x min_y max_y M,
    ref <> [] /\
    map pos_X ref = map (fun q => Num q) xs /\
    map pos_Y ref = map (fun q => Num q) ys /\
    map diameter ref = map (fun q => Num q) ds /\
    map length ref = map (fun q => Num q) ls /\
    is_min min_x xs /\ is_max max_x xs /\
    is_min min_y ys /\ is_max max_y ys /\
    is_max M (ds ++ ls) /\
    let p := (M * 2)%Q in
    let b := mkBounds (Finite (min_x - p)) (Finite (max_x + p))
                      (Finite (min_y - p)) (Finite (max_y + p)) in
    setup_plot_bounds df (time_steps df) = Some (b, DynamicPlotBounds b) /\
    forall r x y,
      In r ref -> pos_X r = Num x -> pos_Y r = Num y ->
      ((min_x - p <= x - p)%Q /\ (x + p <= max_x + p)%Q /\
       (min_y - p <= y - p)%Q /\ (y + p <= max_y + p)%Q) /\
      ((0 <= M)%Q ->
       (min_x - p <= x)%Q /\ (x <= max_x + p)%Q /\
       (min_y - p <= y)%Q /\ (y <= max_y + p)%Q).
Proof.
  intros Hne ref Hnum.
  pose proof (time_steps_nonempty df Hne) as Hts.
  pose proof (reference_rows_nonempty df Hne) as Href.
  unfold rows_at in Href. fold ref in Href.
  destruct (dynamic_bounds_finite ref Href Hnum)
    as (xs & ys & ds & ls & min_x & max_x & min_y & max_y & M
        & Ex & Ey & Ed & El & Nx & Ny & Nd & Nl
        & Hminx & Hmaxx & Hminy & Hmaxy & HM & Hb).
  exists xs, ys, ds, ls, min_x, max_x, min_y, max_y, M.
  repeat (split; [assumption |]).
  cbv zeta. split.
  { unfold setup_plot_bounds, rows_at. fold ref.
    destruct (time_steps df) as [| t ts]; [congruence |].
    destruct ref as [| r0 ref0] eqn:Eref; [congruence |].
    rewrite Nx, Ny, Nd, Nl, Hb. reflexivity. }
  intros r x y Hr Hx Hy.
  assert (Hxin : In x xs).
  { apply In_map_Num. rewrite <- Ex, <- Hx. now apply in_map. }
  assert (Hyin : In y ys).
  { apply In_map_Num. rewrite <- Ey, <- Hy. now apply in_map. }
  pose proof (proj2 Hminx x Hxin). pose proof (proj2 Hmaxx x Hxin).
  pose proof (proj2 Hminy y Hyin). pose proof (proj2 Hmaxy y Hyin).
  split; [| intros HM0]; repeat split; lra.
Qed.

Lemma viewport_of_reference_tick_witness :
  setup_plot_bounds text_in_earlier_tick (time_steps text_in_earlier_tick)
  = Some (mkBounds (Finite (-3)) (Finite 13) (Finite (-6)) (Finite 4),
          DynamicPlotBounds
            (mkBounds (Finite (-3)) (Finite 13) (Finite (-6)) (Finite 4))).
Proof.
  destruct (viewport_of_reference_tick text_in_earlier_tick)
    as (xs & ys & ds & ls & min_x & max_x & min_y & max_y & M
        & _ & Ex & Ey & Ed & El & Hminx & Hmaxx & Hminy & Hmaxy & HM
        & Hb & _).
  - discriminate.
  - intros r Hr. simpl in Hr.
    repeat (destruct Hr as [<- | Hr]; [reflexivity |]). destruct Hr.
  - assert (Exs : xs = [1; 9]%Q).
    { destruct xs as [| a [| b [| c xs]]]; try discriminate Ex.
      now injection Ex as <- <-. }
    assert (Eys : ys = [0; -2]%Q).
    { destruct ys as [| a [| b [| c ys]]]; try discriminate Ey.
      now injection Ey as <- <-. }
    assert (Eds : ds = [1; 1]%Q).
    { destruct ds as [| a [| b [| c ds]]]; try discriminate Ed.
      now injection Ed as <- <-. }
    assert (Els : ls = [2; 1]%Q).
    { destruct ls as [| a [| b [| c ls]]]; try discriminate El.
      now injection El as <- <-. }
    subst xs ys ds ls.
    assert (E1 : min_x = 1%Q).
    { destruct Hminx as [[<- | [<- | []]] Hle]; [reflexivity |].
      exfalso. apply (Hle 1%Q); [now left | reflexivity]. }
    assert (E2 : max_x = 9%Q).
    { destruct Hmaxx as [[<- | [<- | []]] Hle]; [| reflexivity].
      exfalso. apply (Hle 9%Q); [now right; left | reflexivity]. }
    assert (E3 : min_y = (-2)%Q).
    { destruct Hminy as [[<- | [<- | []]] Hle]; [| reflexivity].
      exfalso. apply (Hle (-2)%Q); [now right; left | reflexivity]. }
    assert (E4 : max_y = 0%Q).
    { destruct Hmaxy as [[<- | [<- | []]] Hle]; [reflexivity |].
      exfalso. apply (Hle 0%Q); [now left | reflexivity]. }
    assert (E5 : M = 2%Q).
    { destruct HM as [[<- | [<- | [<- | [<- | []]]]] Hle];
        try reflexivity;
        exfalso; apply (Hle 2%Q); (simpl; tauto) || reflexivity. }
    subst min_x max_x min_y max_y M. exact Hb.
Defined.

(** C3, as stated, fails: with the one record at (0,0) of diameter and
    length -1 the padding is -2 and the box is [2,-2] x [2,-2], which does
    not contain the record's position. *)
Lemma negative_padding_excludes_agent :
  load_video plain_library negative_size = Some negative_size_clean /\
  In (cell_row 0 "cell" 0 0 (-1) (-1) 1 0)
     (filter (fun r => tick_num r =? last (time_steps negative_size_clean) 0)
             negative_size_clean) /\
  exists b,
    setup_plot_bounds negative_size_clean (time_steps negative_size_clean)
    = Some (b, DynamicPlotBounds b) /\
    plot_min_x b = Finite 2 /\ plot_max_x b = Finite (-2) /\
    plot_min_y b = Finite 2 /\ plot_max_y b = Finite (-2) /\
    ~ (2 <= 0)%Q.
Proof.
  split; [reflexivity |]. split; [now left |].
  eexists. split; [reflexivity |]. cbn. repeat split.
  intros H. now apply H.
Qed.

(** ** Capsule geometry *)

Lemma radians_degrees (a : R) : radians (degrees a) = a.
Proof.
  unfold radians, degrees. field. apply PI_neq0.
Qed.

Lemma Q2R_zero : Q2R 0 = 0%R.
Proof.
  unfold Q2R. cbn [Qnum Qden]. apply Rmult_0_l.
Qed.

Lemma Q2R_Z (z : Z) : Q2R (inject_Z z) = IZR z.
Proof.
  unfold Q2R. cbn [Qnum Qden inject_Z]. rewrite Rinv_1. apply Rmult_1_r.
Qed.

(** The transform of a cell, applied to a point of the local frame: the
    rotation by the heading first, the translation to the position next. *)
Lemma cell_transform_point (theta tx ty x y : R) :
  transform_point (translate tx ty (rotate_deg (degrees theta) identity)) (x, y)
  = ((cos theta * x - sin theta * y + tx)%R,
     (sin theta * x + cos theta * y + ty)%R).
Proof.
  unfold rotate_deg. rewrite radians_degrees.
  unfold transform_point, translate, rotate, identity. simpl.
  f_equal; ring.
Qed.

Lemma arctan2_east : arctan2 (Q2R 0) (Q2R 1) = 0%R.
Proof.
  assert (E1 : Q2R 1 = 1%R) by apply (Q2R_Z 1).
  rewrite Q2R_zero, E1. unfold arctan2.
  destruct (Rlt_dec 0 1) as [_ | H]; [| exfalso; apply H; Lra.lra].
  replace (0 / 1)%R with 0%R by Lra.lra. apply atan_0.
Qed.

Lemma arctan2_north : arctan2 (Q2R 1) (Q2R 0) = (PI / 2)%R.
Proof.
  assert (E1 : Q2R 1 = 1%R) by apply (Q2R_Z 1).
  rewrite Q2R_zero, E1. unfold arctan2.
  destruct (Rlt_dec 0 0) as [H | _]; [exfalso; Lra.lra |].
  destruct (Rlt_dec 0 1) as [_ | H]; [reflexivity | exfalso; apply H; Lra.lra].
Qed.

(** C1.  For every cell record the three patches are built in a local
    frame whose origin is the centre of the rectangle, with the rectangle's
    length and both cap centres along the local X axis; all three carry the
    same transform, which is the rotation by atan2(orientation_Y,
    orientation_X) followed by the translation to the position, so the
    capsule is centred at the record's position.  In the two-tick scenario
    the frame of tick 0 holds the capsule centred at (0,0) with body
    half-length 1 and angle 0, and the frame of tick 1 the capsule centred
    at (5,0) with angle PI/2. *)
Theorem capsule_rotate_then_translate :
  (forall w l ox oy px py : Q,
      let c := draw_cell w l ox oy px py in
      let theta := arctan2 (Q2R oy) (Q2R ox) in
      let h := ((l - w) / 2)%Q in
      (exists x0 y0 len wid xl xr r,
          patch (rect c) = FancyBboxPatch (x0, y0) len wid /\
          patch (left_cap c) = Circle (xl, 0%Q) r /\
          patch (right_cap c) = Circle (xr, 0%Q) r /\
          (x0 + len / 2 == 0)%Q /\ (y0 + wid / 2 == 0)%Q /\
          (len / 2 == h)%Q /\ (xl == - h)%Q /\ (xr == h)%Q) /\
      get_transform (left_cap c) = get_transform (rect c) /\
      get_transform (right_cap c) = get_transform (rect c) /\
      get_transform (rect c)
      = translate (Q2R px) (Q2R py) (rotate theta identity) /\
      (forall x y : R,
          transform_point (get_transform (rect c)) (x, y)
          = ((cos theta * x - sin theta * y + Q2R px)%R,
             (sin theta * x + cos theta * y + Q2R py)%R)) /\
      transform_point (get_transform (rect c)) (0%R, 0%R)
      = (Q2R px, Q2R py)) /\
  (load_video plain_library scenario
   = Some [cell_row 0 "cell" 0 0 1 3 1 0; cell_row 1 "cell" 5 0 1 3 0 1] /\
   saved_frames plain_library
                [cell_row 0 "cell" 0 0 1 3 1 0; cell_row 1 "cell" 5 0 1 3 0 1]
   = Some [mkAxes (TitleTick 0) [] (patches_of (draw_cell 1 3 1 0 0 0));
           mkAxes (TitleTick 1) [] (patches_of (draw_cell 1 3 0 1 5 0))] /\
   ((3 - 1) / 2 == 1)%Q /\
   arctan2 (Q2R 0) (Q2R 1) = 0%R /\
   arctan2 (Q2R 1) (Q2R 0) = (PI / 2)%R /\
   transform_point (get_transform (rect (draw_cell 1 3 1 0 0 0))) (0%R, 0%R)
   = (0%R, 0%R) /\
   transform_point (get_transform (rect (draw_cell 1 3 0 1 5 0))) (0%R, 0%R)
   = (5%R, 0%R)).
Proof.
  split.
  - intros w l ox oy px py c theta h.
    assert (Ht : forall x y : R,
               transform_point (get_transform (rect c)) (x, y)
               = ((cos theta * x - sin theta * y + Q2R px)%R,
                  (sin theta * x + cos theta * y + Q2R py)%R))
      by (intros x y; apply cell_transform_point).
    split; [| repeat split].
    + exists (- (l - w) / 2)%Q, (- w / 2)%Q, (l - w)%Q, w,
             (- (l - w) / 2)%Q, ((l - w) / 2)%Q, (w / 2)%Q.
      subst h. repeat split; try reflexivity; field.
    + unfold c, draw_cell. cbn [get_transform rect].
      unfold rotate_deg. now rewrite radians_degrees.
    + exact Ht.
    + rewrite Ht. f_equal; ring.
  - split; [reflexivity |]. split; [reflexivity |].
    split; [reflexivity |].
    split; [apply arctan2_east |]. split; [apply arctan2_north |].
    unfold draw_cell. cbn [get_transform rect].
    rewrite !cell_transform_point, Q2R_zero.
    assert (E5 : Q2R 5 = 5%R) by apply (Q2R_Z 5).
    rewrite E5. split; f_equal; ring.
Qed.

Ltac name_minmax a b spec op :=
  let m := fresh "m" in
  destruct (spec a b) as [[? ?] | [? ?]];
  set (m := op a b) in *; clearbody m.

Ltac split_minmax :=
  repeat match goal with
         | |- context [Qmax ?a ?b] => name_minmax a b Q.max_spec Qmax
         | |- context [Qmin ?a ?b] => name_minmax a b Q.min_spec Qmin
         | _ : context [Qmax ?a ?b] |- _ => name_minmax a b Q.max_spec Qmax
         | _ : context [Qmin ?a ?b] |- _ => name_minmax a b Q.min_spec Qmin
         end.

(** C2, as amended.  For every cell record the rectangle has length
    l - d and width d, both discs have radius d/2 and sit at the midpoints
    of the rectangle's two short edges; when 0 <= d <= l the drawn shape is
    l long from end to end and d wide. *)
Theorem capsule_dimensions (w l ox oy px py : Q) :
  let c := draw_cell w l ox oy px py in
  exists x0 y0 len wid xl yl xr yr r,
    patch (rect c) = FancyBboxPatch (x0, y0) len wid /\
    patch (left_cap c) = Circle (xl, yl) r /\
    patch (right_cap c) = Circle (xr, yr) r /\
    (len == l - w)%Q /\ (wid == w)%Q /\ (r == w / 2)%Q /\
    (xl == x0)%Q /\ (yl == y0 + wid / 2)%Q /\
    (xr == x0 + len)%Q /\ (yr == y0 + wid / 2)%Q /\
    ((0 <= w)%Q -> (w <= l)%Q ->
     (capsule_length c == l)%Q /\ (capsule_width c == w)%Q).
Proof.
  intros c.
  exists (- (l - w) / 2)%Q, (- w / 2)%Q, (l - w)%Q, w,
         (- (l - w) / 2)%Q, 0%Q, ((l - w) / 2)%Q, 0%Q, (w / 2)%Q.
  repeat split; try reflexivity; try field.
  - unfold capsule_length, span, c, draw_cell.
    cbn [patch rect left_cap right_cap x_extent fst snd].
    assert (Ha : (Qabs (w / 2) == w / 2)%Q)
      by (apply Qabs_pos, Qle_shift_div_l; [reflexivity | lra]).
    assert (Hw : (w / 2 * 2 == w)%Q) by field.
    set (a := Qabs (w / 2)) in *. set (hw := (w / 2)%Q) in *.
    clearbody a hw.
    assert (E1 : (- (l - w) / 2 == - ((l - w) / 2))%Q) by field.
    set (u := (- (l - w) / 2)%Q) in *. set (v := ((l - w) / 2)%Q) in *.
    assert (E2 : (v * 2 == l - w)%Q) by (subst v; field).
    clearbody u v.
    split_minmax; lra.
  - unfold capsule_width, span, c, draw_cell.
    cbn [patch rect left_cap right_cap y_extent fst snd].
    assert (Ha : (Qabs (w / 2) == w / 2)%Q)
      by (apply Qabs_pos, Qle_shift_div_l; [reflexivity | lra]).
    assert (Hw : (w / 2 * 2 == w)%Q) by field.
    set (a := Qabs (w / 2)) in *. set (hw := (w / 2)%Q) in *.
    clearbody a hw.
    set (u := (- w / 2)%Q) in *.
    assert (E2 : (u * 2 == - w)%Q) by (subst u; field).
    clearbody u.
    split_minmax; lra.
Qed.

Lemma capsule_dimensions_witness :
  (capsule_length (draw_cell 1 3 1 0 0 0) == 3)%Q /\
  (capsule_width (draw_cell 1 3 1 0 0 0) == 1)%Q.
Proof.
  destruct (capsule_dimensions 1 3 1 0 0 0)
    as (x0 & y0 & len & wid & xl & yl & xr & yr & r & H).
  destruct H as (_ & _ & _ & _ & _ & _ & _ & _ & _ & _ & H).
  apply H; discriminate.
Defined.

(** C2, as stated, fails: with diameter 2 and length 1 the rectangle has
    length -1, the caps of radius 1 sit at 1/2 and -1/2, and the shape is 3
    long, not 1. *)
Lemma short_cell_is_longer_than_length :
  (capsule_length (draw_cell 2 1 1 0 0 0) == 3)%Q /\
  ~ (capsule_length (draw_cell 2 1 1 0 0 0) == 1)%Q.
Proof.
  unfold capsule_length, span, draw_cell.
  cbn [patch rect left_cap right_cap x_extent fst snd].
  split; [reflexivity | intros H; discriminate H].
Qed.

(** C8.  A cell record with length = diameter gives a rectangle of length
    zero (body half-length 0) and two caps of radius diameter/2 whose
    centres both lie at the local origin, which the transform takes to the
    record's position. *)
Theorem capsule_degenerates_to_disc (w l ox oy px py : Q) :
  (l == w)%Q ->
  let c := draw_cell w l ox oy px py in
  exists x0 y0 len wid xl xr r,
    patch (rect c) = FancyBboxPatch (x0, y0) len wid /\
    patch (left_cap c) = Circle (xl, 0%Q) r /\
    patch (right_cap c) = Circle (xr, 0%Q) r /\
    (len == 0)%Q /\ (len / 2 == 0)%Q /\
    (xl == 0)%Q /\ (xr == 0)%Q /\ (r == w / 2)%Q /\
    transform_point (get_transform (left_cap c)) (Q2R xl, Q2R 0)
    = (Q2R px, Q2R py) /\
    transform_point (get_transform (right_cap c)) (Q2R xr, Q2R 0)
    = (Q2R px, Q2R py).
Proof.
  intros Hlw c.
  assert (Hl : (- (l - w) / 2 == 0)%Q) by (rewrite Hlw; field).
  assert (Hr : ((l - w) / 2 == 0)%Q) by (rewrite Hlw; field).
  exists (- (l - w) / 2)%Q, (- w / 2)%Q, (l - w)%Q, w,
         (- (l - w) / 2)%Q, ((l - w) / 2)%Q, (w / 2)%Q.
  repeat split; try reflexivity; try assumption.
  - rewrite Hlw. field.
  - unfold c, draw_cell. cbn [get_transform left_cap].
    rewrite (Qeq_eqR _ _ Hl), Q2R_zero, cell_transform_point.
    f_equal; ring.
  - unfold c, draw_cell. cbn [get_transform right_cap].
    rewrite (Qeq_eqR _ _ Hr), Q2R_zero, cell_transform_point.
    f_equal; ring.
Qed.

Lemma capsule_degenerates_to_disc_witness :
  exists xl r,
    patch (left_cap (draw_cell 1 1 1 0 5 0)) = Circle (xl, 0%Q) r /\
    (xl == 0)%Q /\ (r == 1 / 2)%Q.
Proof.
  destruct (capsule_degenerates_to_disc 1 1 1 0 5 0 (Qeq_refl 1))
    as (x0 & y0 & len & wid & xl & xr & r & H).
  destruct H as (_ & H1 & _ & _ & _ & H2 & _ & H3 & _).
  exists xl, r. auto.
Defined.

(** * Further properties of the code *)

(** ** The two loaders side by side *)

Lemma row_eta {T : Type} (r : Row T) :
  mkRow (tick_num r) (agent_type r) (pos_X r) (pos_Y r) (diameter r)
        (length r) (orientation_X r) (orientation_Y r) (others r) = r.
Proof.
  now destruct r.
Qed.

Lemma to_numeric_number (lib : Library) (v : value) :
  is_number v = true -> to_numeric lib v = v.
Proof.
  destruct v; simpl; congruence.
Qed.

Lemma forallb_is_number_cells {T : Type} (r : Row T) :
  forallb is_number (numeric_columns r) = true ->
  is_number (pos_X r) = true /\ is_number (pos_Y r) = true /\
  is_number (diameter r) = true /\ is_number (length r) = true /\
  is_number (orientation_X r) = true /\ is_number (orientation_Y r) = true.
Proof.
  unfold numeric_columns. cbn [forallb]. rewrite !andb_true_iff. tauto.
Qed.

Lemma is_number_not_na (v : value) : is_number v = true -> isna v = false.
Proof.
  destruct v as [[q | n |] | s]; simpl; congruence.
Qed.

Lemma coerce_numeric_fixed (lib : Library) (df : DataFrame Z) :
  (forall r, In r df -> forallb is_number (numeric_columns r) = true) ->
  dropna_numeric (coerce_numeric lib df) = df.
Proof.
  induction df as [| r df IH]; intros H; [reflexivity |].
  unfold dropna_numeric, coerce_numeric in *. cbn [map filter].
  destruct (forallb_is_number_cells r (H r (or_introl eq_refl)))
    as (H1 & H2 & H3 & H4 & H5 & H6).
  rewrite !to_numeric_number by assumption. rewrite row_eta.
  replace (existsb isna (numeric_columns r)) with false.
  - cbn [negb]. f_equal. apply IH. intros r' Hr'. apply H. now right.
  - unfold numeric_columns. cbn [existsb].
    now rewrite !is_number_not_na.
Qed.

(** X1.  On a file whose six numeric columns hold numbers in every row,
    the video loader and the viewer's loader return the same records (and
    raise on the same files). *)
Theorem loaders_agree_on_numeric_columns
        (lib : Library) (raw : DataFrame value) :
  (forall r, In r raw -> forallb is_number (numeric_columns r) = true) ->
  load_video lib raw = load_data lib raw.
Proof.
  intros H. unfold load_data. rewrite load_video_spec, load_common_spec.
  destruct (clean_all lib raw) as [df |] eqn:E; [| reflexivity].
  f_equal. apply coerce_numeric_fixed. intros r Hr.
  apply (clean_all_In lib raw df r E) in Hr as [r0 [Hin Hc]].
  apply clean_row_kept in Hc as (_ & _ & q & _ & ->).
  apply (H r0 Hin).
Qed.

Lemma loaders_agree_on_numeric_columns_witness :
  load_video plain_library scenario = load_data plain_library scenario.
Proof.
  apply (loaders_agree_on_numeric_columns plain_library scenario).
  intros r Hr. simpl in Hr.
  repeat (destruct Hr as [<- | Hr]; [reflexivity |]). destruct Hr.
Defined.

(** X2.  The viewer's loader raises exactly when a row that passes the
    separator filters has an infinite tick.  When it returns, it keeps
    exactly the rows that have no missing cell and no '#' in any column,
    named or not, and whose tick coerces to a finite number; a kept row is
    the raw row with the tick cast to int64 and every other cell
    untouched. *)
Theorem load_data_survivors (lib : Library) (raw : DataFrame value) :
  (load_data lib raw = None <->
   exists r0, In r0 raw /\ infinite_tick lib r0) /\
  forall df,
    load_data lib raw = Some df ->
    forall r,
      In r df <->
      exists r0 q,
        In r0 raw /\
        existsb isna (row_values r0) = false /\
        existsb contains_hash (row_values r0) = false /\
        to_numeric lib (tick_num r0) = Num q /\
        r = set_tick r0 (int64_of lib q).
Proof.
  split; [apply load_common_none |].
  unfold load_data. rewrite load_common_spec. intros df Hdf r.
  rewrite (clean_all_In lib raw df r Hdf). split.
  - intros [r0 [Hin Hc]].
    apply clean_row_kept in Hc as (H1 & H2 & q & H3 & ->).
    exists r0, q. auto.
  - intros (r0 & q & Hin & H1 & H2 & H3 & ->).
    exists r0. split; [assumption |].
    apply clean_row_kept. eauto.
Qed.

Lemma load_data_survivors_witness :
  load_data plain_library infinite_tick_file = None /\
  In (cell_row 1 "cell" 0 0 1 2 0 1) shuffled_clean.
Proof.
  split.
  - apply (load_data_survivors plain_library infinite_tick_file).
    exists (cell_row (Str "inf") "cell" 5 0 1 3 0 1). split.
    + simpl. auto.
    + repeat split. now exists false.
  - apply (proj2 (load_data_survivors plain_library shuffled)
                 shuffled_clean eq_refl).
    exists (cell_row (Str "1") "cell" 0 0 1 2 0 1), 1%Q.
    repeat split. simpl. auto 6.
Defined.

Lemma clean_all_app (lib : Library) (a b : DataFrame value) :
  clean_all lib (a ++ b) =
  match clean_all lib a, clean_all lib b with
  | Some da, Some db => Some (da ++ db)
  | _, _ => None
  end.
Proof.
  induction a as [| r a IH]; simpl.
  - now destruct (clean_all lib b).
  - rewrite IH.
    destruct (clean_row lib r), (clean_all lib a), (clean_all lib b);
      reflexivity.
Qed.

(** X3.  Cleaning works row by row and keeps the order of the file: for
    both loaders, the records of two pieces of a file put one after the
    other are the records of the first piece followed by those of the
    second, and the whole raises exactly when a piece does. *)
Theorem loaders_distribute_over_append
        (lib : Library) (a b : DataFrame value) :
  load_video lib (a ++ b) =
  match load_video lib a, load_video lib b with
  | Some va, Some vb => Some (va ++ vb)
  | _, _ => None
  end /\
  load_data lib (a ++ b) =
  match load_data lib a, load_data lib b with
  | Some da, Some db => Some (da ++ db)
  | _, _ => None
  end.
Proof.
  unfold load_data. rewrite !load_video_spec, !load_common_spec, clean_all_app.
  destruct (clean_all lib a) as [da |], (clean_all lib b) as [db |];
    split; try reflexivity.
  unfold dropna_numeric, coerce_numeric. now rewrite map_app, filter_app.
Qed.

(** X4.  The two loaders raise on the same files.  When they return, the
    video loader keeps no more than the viewer's loader: each record it
    keeps is a record the viewer's loader keeps, with the six numeric cells
    coerced. *)
Theorem load_video_keeps_less (lib : Library) (raw : DataFrame value) :
  (load_video lib raw = None <-> load_data lib raw = None) /\
  forall dv da,
    load_video lib raw = Some dv ->
    load_data lib raw = Some da ->
    (List.length dv <= List.length da)%nat /\
    forall r, In r dv ->
      exists r', In r' da /\
        tick_num r = tick_num r' /\ agent_type r = agent_type r' /\
        others r = others r' /\
        numeric_columns r = map (to_numeric lib) (numeric_columns r').
Proof.
  unfold load_data. rewrite load_video_spec, load_common_spec.
  destruct (clean_all lib raw) as [df |].
  - split; [split; discriminate |].
    intros dv da [= <-] [= <-]. split.
    + unfold dropna_numeric.
      eapply Nat.le_trans; [apply filter_length_le |].
      unfold coerce_numeric. now rewrite length_map.
    + intros r Hr. unfold dropna_numeric in Hr.
      apply filter_In in Hr as [Hr _]. unfold coerce_numeric in Hr.
      apply in_map_iff in Hr as [r' [<- Hr']]. exists r'. repeat split; auto.
  - split; [split; reflexivity | discriminate].
Qed.

Lemma load_video_keeps_less_witness :
  (List.length (@nil (Row Z))
   <= List.length [set_tick bad_pos_X_row 0])%nat.
Proof.
  apply (proj2 (load_video_keeps_less plain_library bad_pos_X)
               [] [set_tick bad_pos_X_row 0] eq_refl eq_refl).
Defined.

(** ** More on the tick index *)

Lemma strict_head_min (a : Z) (l : list Z) :
  StronglySorted Z.lt (a :: l) -> forall x, In x (a :: l) -> a <= x.
Proof.
  intros Hs x [<- | Hx]; [lia |].
  apply StronglySorted_inv in Hs as [_ Hall].
  rewrite Forall_forall in Hall. specialize (Hall x Hx). lia.
Qed.

(** Two strictly increasing lists with the same entries are the same. *)
Lemma strict_ext (l1 l2 : list Z) :
  StronglySorted Z.lt l1 -> StronglySorted Z.lt l2 ->
  (forall x, In x l1 <-> In x l2) -> l1 = l2.
Proof.
  revert l2. induction l1 as [| a l1 IH]; intros [| b l2] H1 H2 Hext.
  - reflexivity.
  - exfalso. apply (proj2 (Hext b)). now left.
  - exfalso. apply (proj1 (Hext a)). now left.
  - assert (a = b).
    { pose proof (strict_head_min a l1 H1 b (proj2 (Hext b) (or_introl eq_refl))).
      pose proof (strict_head_min b l2 H2 a (proj1 (Hext a) (or_introl eq_refl))).
      lia. }
    subst b. f_equal.
    pose proof (strict_NoDup _ H1) as N1. pose proof (strict_NoDup _ H2) as N2.
    apply NoDup_cons_iff in N1 as [Na1 _]. apply NoDup_cons_iff in N2 as [Na2 _].
    apply StronglySorted_inv in H1 as [H1 _].
    apply StronglySorted_inv in H2 as [H2 _].
    apply IH; try assumption. intros x. split; intros Hx.
    + destruct (proj1 (Hext x) (or_intror Hx)) as [<- | H]; [contradiction | exact H].
    + destruct (proj2 (Hext x) (or_intror Hx)) as [<- | H]; [contradiction | exact H].
Qed.

(** X5.  The tick sequence depends only on which ticks occur: two record
    collections with the same ticks, in any order and any number of times,
    have the same tick sequence. *)
Theorem time_steps_depend_on_tick_set (df1 df2 : DataFrame Z) :
  (forall t, In t (map tick_num df1) <-> In t (map tick_num df2)) ->
  time_steps df1 = time_steps df2.
Proof.
  intros H. apply strict_ext; try apply time_steps_strict.
  intros x. unfold time_steps. rewrite !sorted_In, !unique_In. apply H.
Qed.

Lemma time_steps_depend_on_tick_set_witness :
  time_steps shuffled_clean = time_steps (rev shuffled_clean).
Proof.
  apply (time_steps_depend_on_tick_set shuffled_clean (rev shuffled_clean)).
  intros t. rewrite map_rev, <- in_rev. reflexivity.
Defined.

Lemma strict_last_max (l : list Z) (d : Z) :
  StronglySorted Z.lt l -> forall x, In x l -> x <= last l d.
Proof.
  induction 1 as [| a l Hs IH Hall]; intros x Hx; [destruct Hx |].
  destruct l as [| b l]; [destruct Hx as [<- | []]; simpl; lia |].
  change (last (a :: b :: l) d) with (last (b :: l) d).
  destruct Hx as [<- | Hx]; [| now apply IH].
  rewrite Forall_forall in Hall.
  specialize (IH b (or_introl eq_refl)).
  specialize (Hall b (or_introl eq_refl)). lia.
Qed.

(** X6.  For a record collection that is not empty, the first and the last
    entry of the tick sequence (the range the video script prints, and the
    reference tick of both viewports) are ticks of the data, and every
    record's tick lies between them. *)
Theorem tick_range_bounds_every_record (df : DataFrame Z) :
  df <> [] ->
  let first := hd 0 (time_steps df) in
  let last_tick := last (time_steps df) 0 in
  (exists r, In r df /\ tick_num r = first) /\
  (exists r, In r df /\ tick_num r = last_tick) /\
  forall r, In r df -> first <= tick_num r <= last_tick.
Proof.
  intros Hne first last_tick.
  assert (Hts : time_steps df <> []).
  { destruct df as [| r0 df']; [congruence |].
    intros E. assert (Hin : In (tick_num r0) (time_steps (r0 :: df')))
      by (apply time_steps_In; exists r0; split; [now left | reflexivity]).
    now rewrite E in Hin. }
  pose proof (time_steps_strict df) as Hs.
  split; [| split].
  - apply time_steps_In. subst first.
    destruct (time_steps df); [congruence | now left].
  - apply time_steps_In. now apply last_In.
  - intros r Hr.
    assert (Hin : In (tick_num r) (time_steps df))
      by (apply time_steps_In; eauto).
    split; [| now apply strict_last_max].
    subst first. destruct (time_steps df) as [| a l]; [destruct Hin |].
    now apply (strict_head_min a l Hs).
Qed.

Lemma tick_range_bounds_every_record_witness :
  hd 0 (time_steps shuffled_clean) <= 1 <= last (time_steps shuffled_clean) 0.
Proof.
  destruct (tick_range_bounds_every_record shuffled_clean) as (_ & _ & H).
  - discriminate.
  - apply (H (cell_row 1 "cell" 0 0 1 2 0 1)). simpl. auto.
Defined.

(** ** Which viewport branch runs *)

Lemma numbers_none (col : list value) :
  numbers col = None -> exists s, In (Str s) col.
Proof.
  induction col as [| v col IH]; [discriminate |]. simpl.
  destruct v as [x | s]; [| intros _; exists s; now left].
  simpl. destruct (numbers col); [discriminate |]. intros _.
  destruct IH as [s Hs]; [reflexivity |]. exists s. now right.
Qed.

Lemma numbers_some (col : list value) (xs : list Float) (s : string) :
  numbers col = Some xs -> ~ In (Str s) col.
Proof.
  revert xs. induction col as [| v col IH]; intros xs H Hin; [destruct Hin |].
  simpl in H. destruct v as [x | s']; [| discriminate].
  simpl in H. destruct (numbers col) as [xs' |]; [| discriminate].
  destruct Hin as [E | Hin]; [discriminate |].
  exact (IH xs' eq_refl Hin).
Qed.

(** The viewport block on a non-empty collection: the box around the last
    tick when its four columns hold floats, the [TypeError] when one holds
    text. *)
Lemma setup_plot_bounds_cases (df : DataFrame Z) :
  df <> [] ->
  let ref := rows_at df (last (time_steps df) 0) in
  (exists b,
      setup_plot_bounds df (time_steps df) = Some (b, DynamicPlotBounds b) /\
      forall r s, In r ref -> ~ In (Str s) (viewport_cells r))
  \/ (setup_plot_bounds df (time_steps df) = None /\
      exists r s, In r ref /\ In (Str s) (viewport_cells r)).
Proof.
  intros Hne ref.
  pose proof (time_steps_nonempty df Hne) as Hts.
  pose proof (reference_rows_nonempty df Hne) as Href. fold ref in Href.
  unfold setup_plot_bounds. fold ref.
  destruct (time_steps df) as [| t ts]; [congruence |].
  assert (Hbad : forall f : Row Z -> value,
             numbers (map f ref) = None ->
             (forall r, In (f r) (viewport_cells r)) ->
             exists r s, In r ref /\ In (Str s) (viewport_cells r)).
  { intros f E Hf. apply numbers_none in E as [s Hs].
    apply in_map_iff in Hs as [r [E Hr]]. exists r, s. split; [exact Hr |].
    rewrite <- E. apply Hf. }
  destruct ref as [| r0 ref0] eqn:Eref; [congruence |]. rewrite <- Eref in *.
  destruct (numbers (map pos_X ref)) as [xs |] eqn:Ex;
    [| right; split; [reflexivity | apply (Hbad pos_X Ex); intros r; simpl; auto]].
  destruct (numbers (map pos_Y ref)) as [ys |] eqn:Ey;
    [| right; split; [reflexivity | apply (Hbad pos_Y Ey); intros r; simpl; auto]].
  destruct (numbers (map diameter ref)) as [ds |] eqn:Ed;
    [| right; split; [reflexivity | apply (Hbad diameter Ed); intros r; simpl; auto]].
  destruct (numbers (map length ref)) as [ls |] eqn:El;
    [| right; split; [reflexivity | apply (Hbad length El); intros r; simpl; auto]].
  left. eexists. split; [reflexivity |].
  intros r s Hr Hs. unfold viewport_cells in Hs.
  destruct Hs as [E | [E | [E | [E | []]]]].
  - apply (numbers_some _ _ s Ex). rewrite <- E. now apply in_map.
  - apply (numbers_some _ _ s Ey). rewrite <- E. now apply in_map.
  - apply (numbers_some _ _ s Ed). rewrite <- E. now apply in_map.
  - apply (numbers_some _ _ s El). rewrite <- E. now apply in_map.
Qed.

(** X7.  The viewport block, fed the tick sequence of its own data, never
    takes the "No data in last tick" branch; it returns the default box
    (0,100)x(0,100) with the "No time steps" warning exactly when there is
    no record, and otherwise either the box around the last tick or a
    [TypeError]. *)
Theorem default_bounds_only_without_records (df : DataFrame Z) :
  (forall b,
      setup_plot_bounds df (time_steps df) <> Some (b, WarnNoDataInLastTick)) /\
  (df = [] <->
   setup_plot_bounds df (time_steps df)
   = Some (default_bounds, WarnNoTimeSteps)) /\
  (df <> [] ->
   setup_plot_bounds df (time_steps df) = None \/
   exists b,
     setup_plot_bounds df (time_steps df) = Some (b, DynamicPlotBounds b)).
Proof.
  destruct df as [| r0 df'].
  - repeat split; try discriminate; congruence.
  - assert (Hne : r0 :: df' <> []) by discriminate.
    destruct (setup_plot_bounds_cases _ Hne) as [[b [E _]] | [E _]];
      rewrite E; repeat split; try discriminate; eauto.
Qed.

Lemma default_bounds_only_without_records_witness :
  setup_plot_bounds shuffled_clean (time_steps shuffled_clean) = None \/
  exists b,
    setup_plot_bounds shuffled_clean (time_steps shuffled_clean)
    = Some (b, DynamicPlotBounds b).
Proof.
  apply (default_bounds_only_without_records shuffled_clean). discriminate.
Defined.

(** X8.  In the viewer, on data that is not empty, the viewport
    computation raises exactly when a record of the last tick has text in
    [pos_X], [pos_Y], [diameter] or [length]; otherwise it returns the box
    around the last tick. *)
Theorem viewer_bounds_raise_on_text
        (lib : Library) (raw : DataFrame value) (df : DataFrame Z) :
  load_data lib raw = Some df -> df <> [] ->
  (setup_plot_bounds df (time_steps df) = None <->
   exists r s,
     In r (rows_at df (last (time_steps df) 0)) /\
     In (Str s) (viewport_cells r)) /\
  (setup_plot_bounds df (time_steps df) <> None ->
   exists b,
     setup_plot_bounds df (time_steps df) = Some (b, DynamicPlotBounds b)).
Proof.
  intros Hload Hne.
  destruct (setup_plot_bounds_cases df Hne) as [[b [E Hall]] | [E Hbad]];
    rewrite E.
  - split; [| eauto]. split; [discriminate |].
    intros (r & s & Hr & Hs). exfalso. exact (Hall r s Hr Hs).
  - split; [| congruence]. split; [| reflexivity]. intros _. exact Hbad.
Qed.

Lemma viewer_bounds_raise_on_text_witness :
  setup_plot_bounds [set_tick bad_pos_X_row 0]
                    (time_steps [set_tick bad_pos_X_row 0]) = None.
Proof.
  apply (viewer_bounds_raise_on_text plain_library bad_pos_X
           [set_tick bad_pos_X_row 0] eq_refl).
  - discriminate.
  - exists (set_tick bad_pos_X_row 0), "abc"%string. simpl. auto.
Defined.

(** ** How the two programs end *)


(** The records the video loader keeps hold no text in the four viewport
    columns. *)
Lemma load_video_no_text (lib : Library) (raw : DataFrame value)
      (df : DataFrame Z) (r : Row Z) (s : string) :
  load_video lib raw = Some df -> In r df -> ~ In (Str s) (viewport_cells r).
Proof.
  intros Hload Hr Hs.
  pose proof (load_video_numeric lib raw df r Hload Hr) as Hn.
  destruct (forallb_is_number_cells r Hn) as (H1 & H2 & H3 & H4 & _).
  unfold viewport_cells in Hs.
  destruct Hs as [E | [E | [E | [E | []]]]];
    rewrite E in *; discriminate.
Qed.



(** The video script runs to its last line exactly when cleaning returns
    at least one record and the box around the last tick is finite. *)
Lemma video_script_completes
      (lib : Library) (raw : DataFrame value) (ffmpeg pillow : save_result) :
  process_status (video_script lib raw ffmpeg pillow) = 0 <->
  exists df b,
    load_video lib raw = Some df /\ df <> [] /\
    setup_plot_bounds df (time_steps df) = Some (b, DynamicPlotBounds b) /\
    finite_bounds b = true.
Proof.
  unfold video_script.
  destruct (load_video lib raw) as [df |] eqn:Hload.
  - destruct df as [| r0 df'].
    + simpl. split; [discriminate |].
      intros (df & b & [= <-] & Hne & _). congruence.
    + assert (Hne : r0 :: df' <> []) by discriminate.
      pose proof (time_steps_nonempty _ Hne) as Hts.
      destruct (setup_plot_bounds_cases _ Hne) as [[b [E _]] | [_ Hbad]].
      * destruct (time_steps (r0 :: df')) as [| t ts] eqn:Ets; [congruence |].
        rewrite <- Ets in *. rewrite E.
        destruct (finite_bounds b) eqn:Ef.
        -- destruct (save_animation ffmpeg pillow). simpl.
           split; [| reflexivity]. intros _. exists (r0 :: df'), b. auto.
        -- simpl. split; [discriminate |].
           intros (df & b' & [= <-] & _ & Hb & Hf).
           rewrite E in Hb. injection Hb as <-. congruence.
      * exfalso. destruct Hbad as (r & s & Hr & Hs).
        apply filter_In in Hr as [Hr _].
        exact (load_video_no_text lib raw _ r s Hload Hr Hs).
  - simpl. split; [discriminate |]. intros (df & b & H & _). discriminate.
Qed.

(** X10.  create_video.py returns 0 exactly when the CSV file exists,
    cleaning returns at least one record and the box around the last tick
    is finite, and 1 otherwise; the outcome of the encoders has no part in
    it, so 0 is returned also when neither a video nor a GIF was
    written. *)
Theorem create_video_status
        (lib : Library) (file : option (DataFrame value))
        (ffmpeg pillow : save_result) :
  (create_video_main lib file ffmpeg pillow = 0 \/
   create_video_main lib file ffmpeg pillow = 1) /\
  (create_video_main lib file ffmpeg pillow = 0 <->
   exists raw df b,
     file = Some raw /\ load_video lib raw = Some df /\ df <> [] /\
     setup_plot_bounds df (time_steps df) = Some (b, DynamicPlotBounds b) /\
     finite_bounds b = true).
Proof.
  unfold create_video_main, video_process.
  destruct file as [raw |].
  - pose proof (video_script_completes lib raw ffmpeg pillow) as Hc.
    destruct (process_status (video_script lib raw ffmpeg pillow) =? 0) eqn:E.
    + split; [now left |]. split; [| reflexivity]. intros _.
      apply Z.eqb_eq in E. apply Hc in E as (df & b & H).
      exists raw, df, b. tauto.
    + split; [now right |]. split; [discriminate |].
      intros (raw' & df & b & [= <-] & H). apply Z.eqb_neq in E.
      exfalso. apply E, Hc. eauto.
  - simpl. split; [now right |]. split; [discriminate |].
    intros (raw & df & b & H & _). discriminate.
Qed.

(** ** What a frame holds *)


(** X11.  On records whose six numeric cells are finite numbers the
    frame drawn for an index of the tick sequence never fails, shows that
    tick in its title and holds one circle per EPS record and three
    patches per cell record of that tick, and nothing else: records of any
    other agent type are not drawn, and nothing is left over from the
    frame before. *)
Theorem frame_patch_counts
        (lib : Library) (df : DataFrame Z)
        (i : nat) (tick : Z) (before : Axes) :
  (forall r, In r df -> numeric_row r) ->
  nth_error (time_steps df) i = Some tick ->
  exists fr,
    animate lib df (time_steps df) i before = Some fr /\
    title fr = TitleTick tick /\
    List.length (eps_patches fr)
    = List.length (filter (fun r => value_is "eps" (agent_type r))
                          (rows_at df tick)) /\
    List.length (cell_patches fr)
    = (3 * List.length (filter (fun r => value_is "cell" (agent_type r))
                               (rows_at df tick)))%nat.
Proof.
  intros Hnum Hn.
  destruct (animate_numeric lib df _ i tick Hnum Hn)
    as (es & cs & Hes & Les & Hcs & Lcs & Ha).
  eexists. rewrite animate_fresh. split; [exact Ha |].
  cbn [title eps_patches cell_patches]. auto.
Qed.

Lemma frame_patch_counts_witness :
  exists fr,
    animate plain_library shuffled_clean (time_steps shuffled_clean) 2
            initial_axes = Some fr /\
    List.length (eps_patches fr) = 1%nat /\
    List.length (cell_patches fr) = 3%nat.
Proof.
  destruct (frame_patch_counts plain_library shuffled_clean 2 2 initial_axes)
    as (fr & H1 & _ & H2 & H3).
  - apply shuffled_clean_numeric.
  - reflexivity.
  - exists fr. repeat split; assumption.
Defined.










(** ** The heading of a capsule *)

(** For a vector off the vertical axis, [atan] of the slope gives the
    direction of the vector up to the sign of its first component. *)
Lemma atan_direction (x y : R) :
  (x <> 0)%R ->
  (cos (atan (y / x)) * sqrt (x * x + y * y) = Rabs x)%R /\
  (sin (atan (y / x)) * sqrt (x * x + y * y) = y / x * Rabs x)%R.
Proof.
  intros Hx. rewrite cos_atan, sin_atan.
  assert (Hpos : (0 < 1 + (y / x)²)%R)
    by (pose proof (Rle_0_sqr (y / x)); Lra.lra).
  assert (Hs : (sqrt (1 + (y / x)²) <> 0)%R)
    by (apply Rgt_not_eq, sqrt_lt_R0, Hpos).
  assert (E : (sqrt (x * x + y * y) = Rabs x * sqrt (1 + (y / x)²))%R).
  { rewrite <- sqrt_Rsqr_abs, <- sqrt_mult;
      [| apply Rle_0_sqr | Lra.lra].
    f_equal. unfold Rsqr. field. exact Hx. }
  rewrite E. split; field; auto.
Qed.

(** [np.arctan2] gives the direction of the orientation vector: scaled by
    the length of the vector, its cosine and sine are the two components. *)
Lemma arctan2_direction (x y : R) :
  (cos (arctan2 y x) * sqrt (x * x + y * y) = x)%R /\
  (sin (arctan2 y x) * sqrt (x * x + y * y) = y)%R.
Proof.
  unfold arctan2.
  destruct (Rlt_dec 0 x) as [Hx | Hx].
  - destruct (atan_direction x y) as [Hc Hs]; [Lra.lra |].
    rewrite Hc, Hs, Rabs_pos_eq by Lra.lra. split; [reflexivity | field; Lra.lra].
  - destruct (Rlt_dec x 0) as [Hx' | Hx'].
    + destruct (atan_direction x y) as [Hc Hs]; [Lra.lra |].
      rewrite Rabs_left in Hc, Hs by assumption.
      destruct (Rle_dec 0 y) as [Hy | Hy].
      * rewrite neg_cos, neg_sin. split.
        -- rewrite Ropp_mult_distr_l_reverse, Hc. ring.
        -- rewrite Ropp_mult_distr_l_reverse, Hs. field. Lra.lra.
      * rewrite cos_minus, sin_minus, cos_PI, sin_PI. split.
        -- replace (cos (atan (y / x)) * -1 + sin (atan (y / x)) * 0)%R
             with (- cos (atan (y / x)))%R by ring.
           rewrite Ropp_mult_distr_l_reverse, Hc. ring.
        -- replace (sin (atan (y / x)) * -1 - cos (atan (y / x)) * 0)%R
             with (- sin (atan (y / x)))%R by ring.
           rewrite Ropp_mult_distr_l_reverse, Hs. field. Lra.lra.
    + assert (x = 0%R) by Lra.lra. subst x.
      replace (0 * 0 + y * y)%R with (Rsqr y) by (unfold Rsqr; ring).
      rewrite sqrt_Rsqr_abs.
      destruct (Rlt_dec 0 y) as [Hy | Hy].
      * rewrite cos_PI2, sin_PI2, Rabs_pos_eq by Lra.lra. split; ring.
      * destruct (Rlt_dec y 0) as [Hy' | Hy'].
        -- rewrite cos_neg, sin_neg, cos_PI2, sin_PI2, Rabs_left by assumption.
           split; ring.
        -- assert (y = 0%R) by Lra.lra. subst y.
           rewrite Rabs_R0. split; ring.
Qed.

(** X13.  The long axis of a drawn cell points along its orientation
    vector.  In data coordinates the two cap centres lie on opposite sides
    of the record's position, and the step from the position to the right
    cap, scaled by the length of the orientation vector, is the body
    half-length times the orientation vector. *)
Theorem capsule_axis_follows_orientation (w l ox oy px py : Q) :
  let c := draw_cell w l ox oy px py in
  let h := Q2R ((l - w) / 2) in
  let n := sqrt (Q2R ox * Q2R ox + Q2R oy * Q2R oy) in
  exists xl xr r lx ly rx ry,
    patch (left_cap c) = Circle (xl, 0%Q) r /\
    patch (right_cap c) = Circle (xr, 0%Q) r /\
    transform_point (get_transform (left_cap c)) (Q2R xl, Q2R 0) = (lx, ly) /\
    transform_point (get_transform (right_cap c)) (Q2R xr, Q2R 0) = (rx, ry) /\
    ((rx - Q2R px) * n = h * Q2R ox)%R /\
    ((ry - Q2R py) * n = h * Q2R oy)%R /\
    (lx - Q2R px = - (rx - Q2R px))%R /\
    (ly - Q2R py = - (ry - Q2R py))%R.
Proof.
  intros c h n.
  destruct (arctan2_direction (Q2R ox) (Q2R oy)) as [Hc Hs]. fold n in Hc, Hs.
  do 7 eexists. split; [reflexivity |]. split; [reflexivity |].
  unfold c, draw_cell. cbn [get_transform left_cap right_cap].
  rewrite !cell_transform_point, Q2R_zero.
  split; [reflexivity |]. split; [reflexivity |].
  assert (El : Q2R (- (l - w) / 2) = (- h)%R).
  { subst h. rewrite <- Q2R_opp. apply Qeq_eqR. field. }
  rewrite El. set (th := arctan2 (Q2R oy) (Q2R ox)) in *.
  fold h. clearbody h n th.
  repeat split.
  - transitivity (h * (cos th * n))%R; [ring | now rewrite Hc].
  - transitivity (h * (sin th * n))%R; [ring | now rewrite Hs].
  - ring.
  - ring.
Qed.

(** X14.  The transform of a cell keeps distances: two points of the local
    frame are as far apart after the transform as before, so the patches
    are moved and turned but never stretched. *)
Theorem cell_transform_keeps_distances
        (w l ox oy px py : Q) (x1 y1 x2 y2 : R) :
  let t := get_transform (rect (draw_cell w l ox oy px py)) in
  let p := transform_point t (x1, y1) in
  let q := transform_point t (x2, y2) in
  ((fst p - fst q) * (fst p - fst q) + (snd p - snd q) * (snd p - snd q)
   = (x1 - x2) * (x1 - x2) + (y1 - y2) * (y1 - y2))%R.
Proof.
  intros t p q. subst p q t. unfold draw_cell. cbn [get_transform rect].
  rewrite !cell_transform_point. cbn [fst snd].
  set (th := arctan2 (Q2R oy) (Q2R ox)).
  pose proof (sin2_cos2 th) as H. unfold Rsqr in H.
  transitivity (((sin th * sin th + cos th * cos th)
                 * ((x1 - x2) * (x1 - x2) + (y1 - y2) * (y1 - y2)))%R);
    [ring | rewrite H; ring].
Qed.

(** ** Choosing the part file *)

Lemma prefix_split (p s : string) :
  prefix p s = true -> exists rest, s = (p ++ rest)%string.
Proof.
  revert s. induction p as [| a p IH]; intros s H.
  - now exists s.
  - destruct s as [| b s]; [discriminate |]. simpl in H.
    destruct (ascii_dec a b) as [<- | _]; [| discriminate].
    destruct (IH s H) as [rest ->]. now exists rest.
Qed.

Lemma substring_all (s : string) : substring 0 (String.length s) s = s.
Proof.
  induction s as [| a s IH]; [reflexivity |]. simpl. now rewrite IH.
Qed.

Lemma index_after_part_prefix (rest : string) :
  index 0 "_part_" (part_prefix ++ rest) = Some 17%nat.
Proof.
  destruct rest; reflexivity.
Qed.

Lemma substring_after_part_prefix (rest : string) :
  substring 23 (String.length (part_prefix ++ rest) - 23) (part_prefix ++ rest)
  = rest.
Proof.
  unfold part_prefix. cbn [append String.length Nat.sub substring].
  rewrite Nat.sub_0_r. apply substring_all.
Qed.

(** X15.  The sort key of a part file never fails on the split: for a
    file name that passes the test of the listing loop, the key is [int] of
    the text that follows "simulation_output_part_", cut at the first "."
    or at the first further "_part_", so only [int] itself can raise. *)
Theorem part_number_of_part_file
        (py_int : string -> option Z) (file : string) :
  is_part_file file = true ->
  exists rest,
    file = (part_prefix ++ rest)%string /\
    part_number py_int file
    = py_int (split_first "." (split_first "_part_" rest)).
Proof.
  unfold is_part_file, startswith. rewrite andb_true_iff. intros [Hp _].
  destruct (prefix_split _ _ Hp) as [rest ->]. exists rest.
  split; [reflexivity |].
  unfold part_number, split_second.
  rewrite index_after_part_prefix.
  change (17 + String.length "_part_")%nat with 23%nat.
  now rewrite substring_after_part_prefix.
Qed.

Lemma part_number_of_part_file_witness :
  exists rest,
    "simulation_output_part_012.csv"%string = (part_prefix ++ rest)%string /\
    part_number read_nat "simulation_output_part_012.csv"
    = read_nat (split_first "." (split_first "_part_" rest)).
Proof.
  apply (part_number_of_part_file read_nat "simulation_output_part_012.csv").
  reflexivity.
Defined.

Lemma insert_by_key_In (x y : Z * string) (l : list (Z * string)) :
  In y (insert_by_key x l) <-> y = x \/ In y l.
Proof.
  induction l as [| a l IH]; simpl.
  - intuition.
  - destruct (fst x <=? fst a); simpl; [intuition | rewrite IH; intuition].
Qed.

Lemma sort_by_key_In (y : Z * string) (l : list (Z * string)) :
  In y (sort_by_key l) <-> In y l.
Proof.
  induction l as [| a l IH]; simpl; [tauto |].
  rewrite insert_by_key_In, IH. intuition.
Qed.

Lemma insert_by_key_sorted (x : Z * string) (l : list (Z * string)) :
  StronglySorted key_le l -> StronglySorted key_le (insert_by_key x l).
Proof.
  induction 1 as [| a l Hs IH Hall]; simpl.
  - repeat constructor.
  - destruct (fst x <=? fst a) eqn:E.
    + apply Z.leb_le in E. constructor; [now constructor |].
      constructor; [exact E |].
      eapply Forall_impl; [| exact Hall]. unfold key_le. intros; lia.
    + apply Z.leb_gt in E. constructor; [exact IH |].
      rewrite Forall_forall in *. intros y Hy.
      apply insert_by_key_In in Hy as [-> | Hy]; [unfold key_le; lia | auto].
Qed.

Lemma sort_by_key_sorted (l : list (Z * string)) :
  StronglySorted key_le (sort_by_key l).
Proof.
  induction l as [| a l IH]; simpl; [constructor |].
  now apply insert_by_key_sorted.
Qed.

Lemma sorted_last_greatest (l : list (Z * string)) (d : Z * string) :
  StronglySorted key_le l -> forall x, In x l -> key_le x (last l d).
Proof.
  induction 1 as [| a l Hs IH Hall]; intros x Hx; [destruct Hx |].
  destruct l as [| b l]; [destruct Hx as [<- | []]; unfold key_le; simpl; lia |].
  change (last (a :: b :: l) d) with (last (b :: l) d).
  destruct Hx as [<- | Hx]; [| now apply IH].
  rewrite Forall_forall in Hall.
  specialize (IH b (or_introl eq_refl)).
  specialize (Hall b (or_introl eq_refl)). unfold key_le in *. lia.
Qed.

Lemma last_In_pairs (l : list (Z * string)) (d : Z * string) :
  l <> [] -> In (last l d) l.
Proof.
  induction l as [| a l IH]; [congruence |]. intros _.
  destruct l as [| b l]; [now left |].
  right. apply IH. discriminate.
Qed.

Lemma traverse_In {A B : Type} (f : A -> option B) (l : list A) (ys : list B) :
  traverse f l = Some ys ->
  (forall y, In y ys -> exists x, In x l /\ f x = Some y) /\
  (forall x, In x l -> exists y, In y ys /\ f x = Some y).
Proof.
  revert ys. induction l as [| a l IH]; intros ys H; simpl in H.
  - injection H as <-. split; intros ? [].
  - destruct (f a) as [b |] eqn:Ea; [| discriminate].
    destruct (traverse f l) as [ys' |]; [| discriminate].
    injection H as <-. destruct (IH ys' eq_refl) as [H1 H2]. split.
    + intros y [<- | Hy]; [exists a; split; [now left | exact Ea] |].
      destruct (H1 y Hy) as [x [Hx Hf]]. exists x. split; [now right | exact Hf].
    + intros x [<- | Hx]; [exists b; split; [now left | exact Ea] |].
      destruct (H2 x Hx) as [y [Hy Hf]]. exists y. split; [now right | exact Hf].
Qed.

Lemma traverse_none {A B : Type} (f : A -> option B) (l : list A) :
  traverse f l = None <-> exists x, In x l /\ f x = None.
Proof.
  induction l as [| a l IH]; simpl.
  - split; [discriminate | intros [x [[] _]]].
  - destruct (f a) as [b |] eqn:Ea.
    + destruct (traverse f l) as [ys |].
      * split; [discriminate |]. intros [x [[<- | Hx] Hf]]; [congruence |].
        exfalso. assert (H : Some ys = None) by (apply (proj2 IH); eauto).
        discriminate.
      * split; [| reflexivity]. intros _.
        destruct (proj1 IH eq_refl) as [x [Hx Hf]]. exists x. split; [now right | exact Hf].
    + split; [| reflexivity]. intros _. exists a. split; [now left | exact Ea].
Qed.

(** X16.  When the main block settles on a file, that file is an entry of
    the input directory that passes the name test, its part number reads,
    and no other entry that passes the test has a greater part number. *)
Theorem chosen_part_file_is_highest
        (py_int : string -> option Z) (listing : option (list string))
        (file : string) :
  select_part_file py_int listing = Chosen file ->
  exists files k,
    listing = Some files /\ In file files /\ is_part_file file = true /\
    part_number py_int file = Some k /\
    forall g, In g files -> is_part_file g = true ->
              exists k', part_number py_int g = Some k' /\ k' <= k.
Proof.
  unfold select_part_file. destruct listing as [files |]; [| discriminate].
  destruct (filter is_part_file files) as [| f0 fs] eqn:Ef; [discriminate |].
  rewrite <- Ef.
  destruct (traverse (with_key py_int) (filter is_part_file files))
    as [keyed |] eqn:Ek; [| discriminate].
  intros [= <-].
  destruct (traverse_In _ _ _ Ek) as [Hback Hforth].
  assert (Hne : sort_by_key keyed <> []).
  { destruct (Hforth f0) as [y [Hy _]]; [rewrite Ef; now left |].
    apply sort_by_key_In in Hy. intros E. now rewrite E in Hy. }
  set (top := last (sort_by_key keyed) (0, ""%string)).
  assert (Htop : In top keyed)
    by (apply sort_by_key_In, last_In_pairs, Hne).
  destruct (Hback top Htop) as [x [Hx Hkx]].
  unfold with_key in Hkx.
  destruct (part_number py_int x) as [k |] eqn:Epx; [| discriminate].
  injection Hkx as Etop. apply filter_In in Hx as [Hx1 Hx2].
  exists files, k. rewrite <- Etop. cbn [snd].
  repeat split; try assumption.
  intros g Hg Hpg.
  destruct (Hforth g) as [y [Hy Hky]]; [apply filter_In; auto |].
  unfold with_key in Hky.
  destruct (part_number py_int g) as [k' |]; [| discriminate].
  injection Hky as <-. exists k'. split; [reflexivity |].
  pose proof (sorted_last_greatest _ (0, ""%string)
                (sort_by_key_sorted keyed) (k', g)
                (proj2 (sort_by_key_In _ _) Hy)) as Hle.
  fold top in Hle. rewrite <- Etop in Hle. exact Hle.
Qed.

Lemma chosen_part_file_is_highest_witness :
  exists k,
    part_number read_nat "simulation_output_part_010.csv" = Some k /\
    exists k', part_number read_nat "simulation_output_part_002.csv" = Some k'
               /\ k' <= k.
Proof.
  destruct (chosen_part_file_is_highest read_nat
              (Some ["simulation_output_part_002.csv"; "notes.txt";
                     "simulation_output_part_010.csv";
                     "simulation_output_part_1.csv"]%string)
              "simulation_output_part_010.csv" eq_refl)
    as (files & k & E & _ & _ & Hk & H).
  injection E as <-. exists k. split; [exact Hk |].
  apply H; [simpl; auto | reflexivity].
Defined.

(** X17.  The main block gives up with [exit(1)] exactly when the input
    directory is missing or holds no entry that passes the name test, and
    its sort raises exactly when some entry that passes the test has a part
    number [int] cannot read; in every other case a file is chosen. *)
Theorem select_part_file_outcomes
        (py_int : string -> option Z) (listing : option (list string)) :
  (select_part_file py_int listing = NoPartFiles <->
   forall files, listing = Some files ->
                 forall g, In g files -> is_part_file g = false) /\
  (select_part_file py_int listing = KeyRaised <->
   exists files g,
     listing = Some files /\ In g files /\ is_part_file g = true /\
     part_number py_int g = None).
Proof.
  unfold select_part_file. destruct listing as [files |].
  - destruct (filter is_part_file files) as [| f0 fs] eqn:Ef.
    + split; split; try discriminate.
      * intros _ files' [= <-] g Hg.
        destruct (is_part_file g) eqn:E; [| reflexivity].
        assert (In g (filter is_part_file files)) by (apply filter_In; auto).
        rewrite Ef in *. contradiction.
      * reflexivity.
      * intros (files' & g & [= <-] & Hg & Hp & _).
        assert (In g (filter is_part_file files)) by (apply filter_In; auto).
        rewrite Ef in *. contradiction.
    + rewrite <- Ef.
      assert (H0 : In f0 files /\ is_part_file f0 = true)
        by (apply filter_In; rewrite Ef; now left).
      destruct (traverse (with_key py_int) (filter is_part_file files))
        as [keyed |] eqn:Ek.
      * split; split; try discriminate.
        -- intros H. rewrite (H files eq_refl f0 (proj1 H0)) in H0.
           destruct H0; discriminate.
        -- intros (files' & g & [= <-] & Hg & Hp & Hn). exfalso.
           assert (Hnone : traverse (with_key py_int)
                                    (filter is_part_file files) = None).
           { apply traverse_none. exists g. split; [apply filter_In; auto |].
             unfold with_key. now rewrite Hn. }
           congruence.
      * split; split; try discriminate.
        -- intros H. rewrite (H files eq_refl f0 (proj1 H0)) in H0.
           destruct H0; discriminate.
        -- intros _. apply traverse_none in Ek as [g [Hg Hk]].
           apply filter_In in Hg as [Hg Hp]. exists files, g.
           repeat split; try assumption.
           unfold with_key in Hk.
           destruct (part_number py_int g); [discriminate | reflexivity].
        -- reflexivity.
  - split; split; try discriminate; try reflexivity.
    intros (files & g & H & _). discriminate.
Qed.
